(** * A human-in-the-loop approval workflow (src/app.py)

    Shallow embedding of the workflow state, its three graph nodes, the
    conditional router and the graph built by [create_workflow], followed
    by the resumable execution engine that walks that graph. *)

From Stdlib Require Import ZArith List Ascii String Lia Bool.
From stdpp Require Import base decidable option strings gmap fin_maps pretty.

#[local] Set Warnings "-clear-no-such-hyp".

Local Open Scope string_scope.

(** ** Python values and strings *)

(** A Python [str] is kept as the byte sequence of its UTF-8 encoding:
    concatenation, equality and the substring test [in] on code points
    coincide with the same operations on the encodings. *)

(** The values a [WorkflowState] key is declared to hold:
    [str], [int] and [None]. *)
Inductive pyval : Type :=
| PNone
| PStr (s : string)
| PInt (z : Z).

#[global] Instance pyval_eq_dec : EqDecision pyval.
Proof. solve_decision. Defined.

(** Exceptions other than the interrupt. *)
Inductive pyerr : Type :=
| KeyError (k : string)
| TypeError
| AttributeError.

(** What a call of a graph node does: it returns, it raises
    [NodeInterrupt] with a message, or it raises another exception. *)
Inductive outcome (A : Type) : Type :=
| Ret (a : A)
| Interrupt (msg : string)
| Raise (e : pyerr).
Arguments Ret {A} a.
Arguments Interrupt {A} msg.
Arguments Raise {A} e.

Definition nl : string := String (ascii_of_nat 10) EmptyString.

(** [str(v)], as an f-string formats a value. *)
Definition py_str (v : pyval) : string :=
  match v with
  | PNone => "None"
  | PStr s => s
  | PInt z => pretty z
  end.

(** [needle in hay] for two strings: [needle] starts [hay] or occurs
    further on. *)
Fixpoint starts_with (needle hay : string) : bool :=
  match needle, hay with
  | EmptyString, _ => true
  | String _ _, EmptyString => false
  | String a needle', String b hay' =>
      if decide (a = b) then starts_with needle' hay' else false
  end.

Fixpoint str_in (needle hay : string) : bool :=
  starts_with needle hay ||
  match hay with
  | EmptyString => false
  | String _ rest => str_in needle rest
  end.

Definition is_ascii (c : ascii) : bool :=
  match c with Ascii _ _ _ _ _ _ _ b7 => negb b7 end.

Fixpoint all_ascii (s : string) : bool :=
  match s with
  | EmptyString => true
  | String c rest => is_ascii c && all_ascii rest
  end.

Definition ascii_lower (c : ascii) : ascii :=
  let n := nat_of_ascii c in
  if (65 <=? n)%nat && (n <=? 90)%nat then ascii_of_nat (n + 32) else c.

Fixpoint map_string (f : ascii -> ascii) (s : string) : string :=
  match s with
  | EmptyString => EmptyString
  | String c rest => String (f c) (map_string f rest)
  end.

(** Sequencing of node code: the first exception or interrupt ends it. *)
#[global] Instance outcome_ret : MRet outcome := fun A a => Ret a.
#[global] Instance outcome_bind : MBind outcome := fun A B f m =>
  match m with
  | Ret a => f a
  | Interrupt msg => Interrupt msg
  | Raise e => Raise e
  end.

(** [d[k]] and [d.get(k, default)] on a dictionary. *)
Definition dict_item (d : gmap string pyval) (k : string) : outcome pyval :=
  match d !! k with
  | Some v => Ret v
  | None => Raise (KeyError k)
  end.

Definition dict_get (d : gmap string pyval) (k : string) (dflt : pyval) : pyval :=
  default dflt (d !! k).

(** [d.get(key, default)] on a dictionary whose keys are all strings:
    a key that is not a string equals none of them. *)
Definition str_dict_get (d : gmap string string) (key : pyval) (dflt : string) : string :=
  match key with
  | PStr k => default dflt (d !! k)
  | _ => dflt
  end.

(** [v > 0]: defined between integers, a [TypeError] otherwise. *)
Definition py_gt_zero (v : pyval) : outcome bool :=
  match v with
  | PInt z => Ret (0 <? z)%Z
  | _ => Raise TypeError
  end.

(** ** State definition

    [WorkflowState] is a [TypedDict]: at run time a plain dictionary with
    the keys task, approval_status, result and iteration. *)
Abbreviation WorkflowState := (gmap string pyval).

Section Workflow.

(** CPython lowercases an all-ASCII string byte by byte; any other string
    goes through the Unicode case tables, which are not part of this
    program and are taken as a parameter. *)
Variable unicode_lower : string -> string.

Definition str_lower (s : string) : string :=
  if all_ascii s then map_string ascii_lower s else unicode_lower s.

(** [v.lower()]: only a string has the method. *)
Definition py_lower (v : pyval) : outcome string :=
  match v with
  | PStr s => Ret (str_lower s)
  | _ => Raise AttributeError
  end.

(** ** Graph nodes *)

Definition sensitive_keywords : list string :=
  ["delete"; "remove"; "critical"; "important"; "sensitive"].

Definition interrupt_message (task : string) : string :=
  "🔔 Task requires human approval:" +:+ nl +:+
  "📋 Task: " +:+ task +:+ nl +:+
  "Please choose: Approve / Reject / Modify".

Definition analyze_task (state : WorkflowState) : outcome WorkflowState :=
  task ← dict_item state "task";
  let iteration := dict_get state "iteration" (PInt 0) in
  modified_pass ← py_gt_zero iteration;
  if (modified_pass : bool) then
    Ret (<["approval_status" := PStr "modified"]> state)
  else
    lowered ← py_lower task;
    let needs_approval :=
      existsb (fun keyword => str_in keyword lowered) sensitive_keywords in
    if needs_approval then Interrupt (interrupt_message (py_str task))
    else Ret (<["approval_status" := PStr "auto_approved"]> state).

Definition status_messages (task : pyval) : gmap string string :=
  {[ "approved" := "✅ Task approved and executed:" +:+ nl +:+ "📋 " +:+ py_str task;
     "modified" := "📝 Modified task executed successfully:" +:+ nl +:+ "📋 " +:+ py_str task;
     "auto_approved" := "✅ Task auto-approved and executed:" +:+ nl +:+ "📋 " +:+ py_str task ]}.

Definition execute_task (state : WorkflowState) : outcome WorkflowState :=
  task ← dict_item state "task";
  let approval_status := dict_get state "approval_status" (PStr "unknown") in
  let result :=
    str_dict_get (status_messages task) approval_status
      ("✅ Task completed:" +:+ nl +:+ "📋 " +:+ py_str task) in
  Ret (<["result" := PStr result]> state).

Definition handle_rejection (state : WorkflowState) : outcome WorkflowState :=
  task ← dict_item state "task";
  Ret (<["result" :=
           PStr ("❌ Task rejected and not executed:" +:+ nl +:+ "📋 " +:+ py_str task)]>
         state).

(** ** Conditional routing *)

Definition route_after_analyze (state : WorkflowState) : string :=
  let approval_status := dict_get state "approval_status" (PStr EmptyString) in
  if decide (approval_status = PStr "rejected") then "reject" else "execute".

(** ** Workflow graph *)

Definition START : string := "__start__".
Definition END : string := "__end__".

Record StateGraph : Type := {
  nodes : gmap string (WorkflowState -> outcome WorkflowState);
  edges : gmap string string;
  branches : gmap string ((WorkflowState -> string) * gmap string string)
}.

Definition empty_graph : StateGraph :=
  {| nodes := ∅; edges := ∅; branches := ∅ |}.

Definition add_node (name : string) (action : WorkflowState -> outcome WorkflowState)
    (g : StateGraph) : StateGraph :=
  {| nodes := <[name := action]> (nodes g); edges := edges g; branches := branches g |}.

Definition add_edge (src dst : string) (g : StateGraph) : StateGraph :=
  {| nodes := nodes g; edges := <[src := dst]> (edges g); branches := branches g |}.

Definition add_conditional_edges (src : string) (path : WorkflowState -> string)
    (path_map : gmap string string) (g : StateGraph) : StateGraph :=
  {| nodes := nodes g; edges := edges g;
     branches := <[src := (path, path_map)]> (branches g) |}.

Definition create_workflow : StateGraph :=
  let workflow := empty_graph in
  let workflow := add_node "analyze" analyze_task workflow in
  let workflow := add_node "execute" execute_task workflow in
  let workflow := add_node "reject" handle_rejection workflow in
  let workflow := add_edge START "analyze" workflow in
  let workflow :=
    add_conditional_edges "analyze" route_after_analyze
      {[ "execute" := "execute"; "reject" := "reject" ]} workflow in
  let workflow := add_edge "execute" END workflow in
  let workflow := add_edge "reject" END workflow in
  workflow.

(** ** What the callers hand to the engine *)

(** [process_new_task] starts every task from this state. *)
Definition initial_state (task : string) : WorkflowState :=
  {[ "task" := PStr task; "approval_status" := PNone;
     "result" := PNone; "iteration" := PInt 0 ]}.

(** A human decision: [resume_workflow decision], or
    [modify_and_resume new_task]. *)
Inductive decision : Type :=
| Decide (d : string)
| Modify (new_task : string).

(** The update each of the two callers passes to [update_state]. *)
Definition decision_update (d : decision) : WorkflowState :=
  match d with
  | Decide s => {[ "approval_status" := PStr s ]}
  | Modify new_task =>
      {[ "task" := PStr new_task; "approval_status" := PStr "modified";
         "iteration" := PInt 1 ]}
  end.

(** ** Execution engine *)

(** Modelled from the spec: the checkpoint of a thread. The engine that
    [stream], [update_state] and [get_state] call is the graph library's and
    is not among the sources; the record follows the spec's data model: the
    latest state, the step the thread is paused at, a version counter. *)
Record Checkpoint : Type := {
  values : WorkflowState;
  paused_at : option string;
  version : nat
}.

(** Modelled from the spec: the per-thread states of the engine. *)
Inductive thread_state : Type := FRESH | RUNNING | SUSPENDED | COMPLETED.

(** Modelled from the spec: where a walk stands, at a step about to run
    (the thread is RUNNING) or past a terminal step. *)
Inductive cursor : Type :=
| Run (node : string)
| Stop.

(** Modelled from the spec: the error taxonomy of the engine. A malformed
    edge table and an exhausted walk are the programmer errors of the
    graph definition. *)
Inductive engine_error : Type :=
| InvalidTransition
| UnknownThread
| StepFailure (e : pyerr)
| MalformedGraph
| WalkExhausted.

(** Modelled from the spec: the outcome of [run] and [resume]. The result
    is read as the callers read it, [state.values.get("result")]. *)
Inductive RunOutcome : Type :=
| suspended (message : string)
| completed (result : pyval).

Inductive engine_result : Type :=
| Ok (o : RunOutcome)
| Err (e : engine_error).

(** Modelled from the spec: the state of a thread in the checkpoint store,
    as seen between two operations. *)
Definition thread_status (store : gmap string Checkpoint) (thread_id : string)
    : thread_state :=
  match store !! thread_id with
  | None => FRESH
  | Some ck => match paused_at ck with Some _ => SUSPENDED | None => COMPLETED end
  end.

Definition goto (node : string) : cursor :=
  if decide (node = END) then Stop else Run node.

(** Modelled from the spec: the step that follows [node], by its
    conditional edge (router, then the label table) or its plain edge. *)
Definition successor (g : StateGraph) (node : string) (state : WorkflowState)
    : option string :=
  match branches g !! node with
  | Some (path, path_map) => path_map !! path state
  | None => edges g !! node
  end.

Inductive step_result : Type :=
| Advance (c : cursor) (ck : Checkpoint)
| Suspend (msg : string) (ck : Checkpoint)
| Abort (e : engine_error).

(** Modelled from the spec: one step of the walk. The step's output state
    becomes the checkpoint; a suspension parks the thread at the step with
    the state it had on entering it; a failure commits nothing. *)
Definition engine_step (g : StateGraph) (node : string) (ck : Checkpoint)
    : step_result :=
  match nodes g !! node with
  | None => Abort MalformedGraph
  | Some action =>
      match action (values ck) with
      | Ret state' =>
          match successor g node state' with
          | Some next =>
              Advance (goto next)
                {| values := state'; paused_at := None; version := S (version ck) |}
          | None => Abort MalformedGraph
          end
      | Interrupt msg =>
          Suspend msg
            {| values := values ck; paused_at := Some node; version := S (version ck) |}
      | Raise e => Abort (StepFailure e)
      end
  end.

Inductive walk_result : Type :=
| Reached (ck : Checkpoint)
| Parked (msg : string) (ck : Checkpoint)
| Failed (e : engine_error).

(** Modelled from the spec: the walk, until a terminal step completes or a
    step suspends. *)
Fixpoint walk (fuel : nat) (g : StateGraph) (c : cursor) (ck : Checkpoint)
    : walk_result :=
  match c with
  | Stop => Reached ck
  | Run node =>
      match fuel with
      | O => Failed WalkExhausted
      | S fuel' =>
          match engine_step g node ck with
          | Advance c' ck' => walk fuel' g c' ck'
          | Suspend msg ck' => Parked msg ck'
          | Abort e => Failed e
          end
      end
  end.

(** A forward pass of an acyclic graph runs each step at most once. *)
Definition walk_budget (g : StateGraph) : nat := size (nodes g).

(** Modelled from the spec: only a walk that completed or suspended
    commits a checkpoint; after a failure the store is as it was. *)
Definition commit (store : gmap string Checkpoint) (thread_id : string)
    (r : walk_result) : gmap string Checkpoint * engine_result :=
  match r with
  | Reached ck =>
      (<[thread_id := ck]> store, Ok (completed (dict_get (values ck) "result" PNone)))
  | Parked msg ck => (<[thread_id := ck]> store, Ok (suspended msg))
  | Failed e => (store, Err e)
  end.

(** Modelled from the spec: [run], valid from FRESH only. *)
Definition run (g : StateGraph) (store : gmap string Checkpoint)
    (thread_id : string) (task : string)
    : gmap string Checkpoint * engine_result :=
  match store !! thread_id with
  | Some _ => (store, Err InvalidTransition)
  | None =>
      match edges g !! START with
      | None => (store, Err MalformedGraph)
      | Some entry =>
          commit store thread_id
            (walk (walk_budget g) g (goto entry)
               {| values := initial_state task; paused_at := None; version := 0 |})
      end
  end.

(** Modelled from the spec: [resume] merges the decision into the
    checkpointed state and walks on from the checkpoint. On two points the
    model follows the program, where it shows otherwise than the spec's
    words. The walk re-enters at the parked step itself: the interrupted
    node runs again, which is why Analyze starts with its iteration check
    and [modify_and_resume] sets iteration to 1. And there is no validity
    check: the handlers call [update_state] and then [stream] on whatever
    thread there is, so the update is written as a further checkpoint
    first, and on a thread with nothing pending no step runs after it. *)
Definition resume (g : StateGraph) (store : gmap string Checkpoint)
    (thread_id : string) (d : decision)
    : gmap string Checkpoint * engine_result :=
  match store !! thread_id with
  | None => (store, Err UnknownThread)
  | Some ck =>
      let merged := decision_update d ∪ values ck in
      let updated :=
        {| values := merged; paused_at := paused_at ck; version := S (version ck) |} in
      let store := <[thread_id := updated]> store in
      match paused_at ck with
      | Some node =>
          commit store thread_id
            (walk (walk_budget g) g (Run node)
               {| values := merged; paused_at := None; version := S (version ck) |})
      | None => (store, Ok (completed (dict_get merged "result" PNone)))
      end
  end.

(** Modelled from the spec: [getState]. *)
Definition getState (store : gmap string Checkpoint) (thread_id : string)
    : option WorkflowState :=
  values <$> store !! thread_id.

(** Modelled from the spec: the caller may discard a thread's checkpoint,
    which returns the thread to FRESH. *)
Definition discard (store : gmap string Checkpoint) (thread_id : string)
    : gmap string Checkpoint :=
  delete thread_id store.

(** The configurations a thread passes through: from the entry of [run],
    by steps of the walk, and by the merge of [resume]. After the merge the
    walk re-enters at the parked step, which is what the iteration check at
    the head of Analyze provides for; the relation also admits re-entering
    past the parked step, as the spec words it, and the merge alone, with no
    step after it. *)
Inductive thread_reach (g : StateGraph) : cursor -> Checkpoint -> Prop :=
| reach_entry task entry :
    edges g !! START = Some entry ->
    thread_reach g (goto entry)
      {| values := initial_state task; paused_at := None; version := 0 |}
| reach_advance node ck c' ck' :
    thread_reach g (Run node) ck ->
    engine_step g node ck = Advance c' ck' ->
    thread_reach g c' ck'
| reach_suspend node ck msg ck' :
    thread_reach g (Run node) ck ->
    engine_step g node ck = Suspend msg ck' ->
    thread_reach g Stop ck'
| reach_resume ck node d next :
    thread_reach g Stop ck ->
    paused_at ck = Some node ->
    successor g node (decision_update d ∪ values ck) = Some next ->
    thread_reach g (goto next)
      {| values := decision_update d ∪ values ck; paused_at := None;
         version := S (version ck) |}
| reach_reenter ck node d :
    thread_reach g Stop ck ->
    paused_at ck = Some node ->
    thread_reach g (Run node)
      {| values := decision_update d ∪ values ck; paused_at := None;
         version := S (version ck) |}
| reach_update ck d :
    thread_reach g Stop ck ->
    thread_reach g Stop
      {| values := decision_update d ∪ values ck; paused_at := paused_at ck;
         version := S (version ck) |}.

(** The checkpoint stores the engine operations lead to. *)
Inductive reachable (g : StateGraph) : gmap string Checkpoint -> Prop :=
| reachable_empty : reachable g ∅
| reachable_run store thread_id task :
    reachable g store -> reachable g (run g store thread_id task).1
| reachable_resume store thread_id d :
    reachable g store -> reachable g (resume g store thread_id d).1
| reachable_discard store thread_id :
    reachable g store -> reachable g (discard store thread_id).

(** ** Dictionaries as objects *)

(** A node receives a reference to its argument. Its code only reads the
    argument, and the one dictionary it builds is the display
    [{**state, key: value}] it returns, a new object. *)
Definition dict_display (h : gmap positive WorkflowState) (d : WorkflowState)
    : gmap positive WorkflowState * positive :=
  let ref := fresh (dom h) in (<[ref := d]> h, ref).

Definition call_node (action : WorkflowState -> outcome WorkflowState)
    (h : gmap positive WorkflowState) (ref : positive)
    : gmap positive WorkflowState * outcome positive :=
  match h !! ref with
  | None => (h, Raise TypeError)
  | Some state =>
      match action state with
      | Ret state' => let '(h', ref') := dict_display h state' in (h', Ret ref')
      | Interrupt msg => (h, Interrupt msg)
      | Raise e => (h, Raise e)
      end
  end.

(** A string occurs in another. *)
Definition substring_of (needle hay : string) : Prop :=
  exists pre post, hay = pre +:+ needle +:+ post.

(** A key holds a string: it is set. *)
Definition holds_string (v : option pyval) : Prop :=
  exists s, v = Some (PStr s).

(** What holds of a thread of [create_workflow] wherever it stands: a
    running thread has a task and no result yet, and is about to be
    analysed or, with approval_status set, on its way to a terminal step;
    a stopped thread is parked at Analyze, still without a result, or has
    completed with one. *)
Definition thread_inv (c : cursor) (ck : Checkpoint) : Prop :=
  match c with
  | Run node =>
      paused_at ck = None /\
      values ck !! "result" = Some PNone /\
      holds_string (values ck !! "task") /\
      (node = "analyze" \/
       ((node = "execute" \/ node = "reject") /\
        holds_string (values ck !! "approval_status")))
  | Stop =>
      (paused_at ck = Some "analyze" /\
       values ck !! "result" = Some PNone /\
       holds_string (values ck !! "task")) \/
      (paused_at ck = None /\
       holds_string (values ck !! "task") /\
       holds_string (values ck !! "approval_status") /\
       holds_string (values ck !! "result"))
  end.

(** The state of a thread parked at Analyze: the state [run] started it
    in, with whatever a decision has since written to approval_status. *)
Definition parked_state (task : string) (status : pyval) : WorkflowState :=
  <["approval_status" := status]> (initial_state task).

(** What holds of a checkpoint the engine has stored: the thread is parked
    at Analyze on a task that needs approval, at iteration 0 and without a
    result, or it has completed with a result. *)
Definition checkpoint_inv (ck : Checkpoint) : Prop :=
  (paused_at ck = Some "analyze" /\
   exists task status,
     values ck = parked_state task status /\
     existsb (fun keyword => str_in keyword (str_lower task)) sensitive_keywords
       = true) \/
  (paused_at ck = None /\
   holds_string (values ck !! "task") /\
   holds_string (values ck !! "approval_status") /\
   holds_string (values ck !! "result")).

(** ** Strings *)

Lemma append_cons (c : ascii) (a b : string) :
  String c a +:+ b = String c (a +:+ b).
Proof. reflexivity. Qed.

Lemma starts_with_spec (a b : string) :
  starts_with a b = true <-> exists post, b = a +:+ post.
Proof.
  revert b; induction a as [|c a IH]; intros b.
  - split; [intros _; by exists b | done].
  - destruct b as [|c' b]; simpl.
    + split; [done | intros [post H]; discriminate H].
    + case_decide as Hc.
      * subst c'. rewrite IH. split; intros [post H]; exists post.
        -- by rewrite append_cons, H.
        -- rewrite append_cons in H. by injection H.
      * split; [done | intros [post H]].
        rewrite append_cons in H. injection H; congruence.
Qed.

Lemma str_in_spec (needle hay : string) :
  str_in needle hay = true <-> substring_of needle hay.
Proof.
  unfold substring_of. induction hay as [|c hay IH]; simpl.
  - rewrite orb_false_r, starts_with_spec. split.
    + intros [post H]. by exists EmptyString, post.
    + intros ([|c pre] & post & H); [by exists post | discriminate H].
  - rewrite orb_true_iff, starts_with_spec, IH. split.
    + intros [[post H] | (pre & post & H)].
      * by exists EmptyString, post.
      * exists (String c pre), post. by rewrite append_cons, H.
    + intros ([|c' pre] & post & H).
      * left. by exists post.
      * right. rewrite append_cons in H. injection H as _ H. by exists pre, post.
Qed.

(** ** The nodes *)

Lemma dict_item_Some (d : gmap string pyval) (k : string) (v : pyval) :
  d !! k = Some v -> dict_item d k = Ret v.
Proof. unfold dict_item. by intros ->. Qed.

Lemma analyze_task_Ret (state state' : WorkflowState) :
  analyze_task state = Ret state' ->
  exists status, state' = <["approval_status" := PStr status]> state /\
    (status = "modified" \/ status = "auto_approved").
Proof.
  unfold analyze_task, dict_item.
  destruct (state !! "task") as [task|]; [|done]. simpl.
  destruct (py_gt_zero _) as [[|]| |]; simpl; try done.
  - intros [= <-]. eauto.
  - destruct (py_lower task) as [lowered| |]; simpl; try done.
    match goal with |- context [if ?b then _ else _] => destruct b end; [done|].
    intros [= <-]. eauto.
Qed.

Lemma execute_task_Ret (state state' : WorkflowState) :
  execute_task state = Ret state' ->
  exists result, state' = <["result" := PStr result]> state.
Proof.
  unfold execute_task, dict_item.
  destruct (state !! "task") as [task|]; [|done]. simpl.
  intros [= <-]. eauto.
Qed.

Lemma handle_rejection_Ret (state state' : WorkflowState) :
  handle_rejection state = Ret state' ->
  exists result, state' = <["result" := PStr result]> state.
Proof.
  unfold handle_rejection, dict_item.
  destruct (state !! "task") as [task|]; [|done]. simpl.
  intros [= <-]. eauto.
Qed.

(** C7: the router is a total function of the state alone; it answers
    reject exactly when approval_status holds the string rejected, and
    execute for every other content of that key, a missing key and [None]
    included. *)
Theorem route_after_analyze_spec (state : WorkflowState) :
  (route_after_analyze state = "reject" <->
     state !! "approval_status" = Some (PStr "rejected")) /\
  (route_after_analyze state = "execute" <->
     state !! "approval_status" <> Some (PStr "rejected")) /\
  (state !! "approval_status" = None -> route_after_analyze state = "execute") /\
  (state !! "approval_status" = Some PNone -> route_after_analyze state = "execute").
Proof.
  unfold route_after_analyze, dict_get.
  destruct (decide (default (PStr EmptyString) (state !! "approval_status")
                    = PStr "rejected")) as [Hd|Hd];
    destruct (state !! "approval_status") as [v|]; simpl in Hd;
    split_and!; try split; try done; congruence.
Qed.

(** C6: on a state that has a task, Execute writes the message keyed by
    approval_status when that is approved, modified or auto_approved, and
    the generic completion message for any other content of the key (a
    missing key, [None], or any other string). *)
Theorem execute_task_messages (state : WorkflowState) (task : pyval) :
  state !! "task" = Some task ->
  let status := state !! "approval_status" in
  let writes text :=
    execute_task state =
      Ret (<["result" := PStr (text +:+ nl +:+ "📋 " +:+ py_str task)]> state) in
  (status = Some (PStr "approved") -> writes "✅ Task approved and executed:") /\
  (status = Some (PStr "modified") -> writes "📝 Modified task executed successfully:") /\
  (status = Some (PStr "auto_approved") -> writes "✅ Task auto-approved and executed:") /\
  (status <> Some (PStr "approved") -> status <> Some (PStr "modified") ->
   status <> Some (PStr "auto_approved") -> writes "✅ Task completed:").
Proof.
  intros Htask status writes. subst status writes. cbv beta.
  unfold execute_task. rewrite (dict_item_Some _ _ _ Htask).
  unfold dict_get, mbind, outcome_bind.
  split_and!.
  - by intros ->.
  - by intros ->.
  - by intros ->.
  - intros H1 H2 H3. do 2 f_equal. f_equal.
    destruct (state !! "approval_status") as [[|s|z]|]; try done.
    unfold str_dict_get, status_messages. simpl.
    rewrite !lookup_insert_ne, lookup_singleton_ne; [done|congruence..].
Qed.

Lemma nodes_create_workflow (name : string)
    (action : WorkflowState -> outcome WorkflowState) :
  nodes create_workflow !! name = Some action ->
  (name = "analyze" /\ action = analyze_task) \/
  (name = "execute" /\ action = execute_task) \/
  (name = "reject" /\ action = handle_rejection).
Proof.
  unfold create_workflow. simpl.
  rewrite !lookup_insert_Some, lookup_empty.
  intros [[<- <-]|[_ [[<- <-]|[_ [[<- <-]|[_ H]]]]]]; auto. discriminate H.
Qed.

(** C10: called on a reference to a state, a node of the workflow that
    returns hands back a new dictionary and leaves every existing one, its
    argument included, as it was; the new dictionary differs from the
    argument in approval_status only (Analyze) or in result only (Execute
    and Reject), so task and iteration are never changed. *)
Theorem node_frame (name : string) (action : WorkflowState -> outcome WorkflowState)
    (h h' : gmap positive WorkflowState) (ref ref' : positive)
    (state : WorkflowState) :
  nodes create_workflow !! name = Some action ->
  h !! ref = Some state ->
  call_node action h ref = (h', Ret ref') ->
  let written :=
    if decide (name = "analyze") then "approval_status" else "result" in
  h !! ref' = None /\
  h' !! ref = Some state /\
  (forall r, is_Some (h !! r) -> h' !! r = h !! r) /\
  exists state',
    action state = Ret state' /\
    h' !! ref' = Some state' /\
    (forall k, k <> written -> state' !! k = state !! k) /\
    state' !! "task" = state !! "task" /\
    state' !! "iteration" = state !! "iteration".
Proof.
  intros Hnode Href Hcall written.
  unfold call_node in Hcall. rewrite Href in Hcall.
  destruct (action state) as [state'| |] eqn:Hact; try discriminate Hcall.
  unfold dict_display in Hcall. injection Hcall as <- <-.
  assert (Hfresh : h !! fresh (dom h) = None).
  { apply not_elem_of_dom, is_fresh. }
  assert (Hold : forall r, is_Some (h !! r) -> <[fresh (dom h) := state']> h !! r = h !! r).
  { intros r [x Hr]. apply lookup_insert_ne. intros E. rewrite E in Hfresh. congruence. }
  split_and!; [done | by rewrite Hold | done |].
  exists state'. split; [done|]. split; [apply lookup_insert_eq|].
  assert (Hw : exists v, state' = <[written := v]> state).
  { subst written.
    destruct (nodes_create_workflow _ _ Hnode) as [[-> ->]|[[-> ->]|[-> ->]]].
    - destruct (analyze_task_Ret _ _ Hact) as (v & -> & _). by eexists.
    - destruct (execute_task_Ret _ _ Hact) as (v & ->). by eexists.
    - destruct (handle_rejection_Ret _ _ Hact) as (v & ->). by eexists. }
  destruct Hw as [v ->].
  assert (written <> "task" /\ written <> "iteration") as [? ?].
  { subst written. case_decide; done. }
  split_and!; [intros k Hk | |]; by rewrite lookup_insert_ne.
Qed.

(** ** The walk over the workflow graph *)

Lemma needs_approval_spec (lowered : string) :
  existsb (fun keyword => str_in keyword lowered) sensitive_keywords = true <->
  exists keyword, In keyword sensitive_keywords /\ substring_of keyword lowered.
Proof.
  rewrite existsb_exists. split; intros (keyword & Hin & H); exists keyword;
    (split; [done|]); by apply str_in_spec.
Qed.

Lemma analyze_task_initial (task : string) :
  analyze_task (initial_state task) =
    if existsb (fun keyword => str_in keyword (str_lower task)) sensitive_keywords
    then Interrupt (interrupt_message task)
    else Ret (<["approval_status" := PStr "auto_approved"]> (initial_state task)).
Proof. reflexivity. Qed.

Lemma entry_create_workflow : edges create_workflow !! START = Some "analyze".
Proof. reflexivity. Qed.

Lemma node_analyze : nodes create_workflow !! "analyze" = Some analyze_task.
Proof. reflexivity. Qed.

Lemma node_execute : nodes create_workflow !! "execute" = Some execute_task.
Proof. reflexivity. Qed.

Lemma node_reject : nodes create_workflow !! "reject" = Some handle_rejection.
Proof. reflexivity. Qed.

Lemma budget_create_workflow : walk_budget create_workflow = 3.
Proof. reflexivity. Qed.

Lemma successor_analyze (state : WorkflowState) :
  successor create_workflow "analyze" state = Some (route_after_analyze state).
Proof.
  unfold successor.
  change (branches create_workflow !! "analyze") with
    (Some (route_after_analyze,
           ({[ "execute" := "execute"; "reject" := "reject" ]} : gmap string string))).
  unfold route_after_analyze. by case_decide.
Qed.

Lemma goto_route (state : WorkflowState) :
  goto (route_after_analyze state) = Run (route_after_analyze state).
Proof. unfold route_after_analyze. by case_decide. Qed.

Lemma engine_step_analyze (ck : Checkpoint) :
  engine_step create_workflow "analyze" ck =
    match analyze_task (values ck) with
    | Ret state' =>
        Advance (Run (route_after_analyze state'))
          {| values := state'; paused_at := None; version := S (version ck) |}
    | Interrupt msg =>
        Suspend msg
          {| values := values ck; paused_at := Some "analyze";
             version := S (version ck) |}
    | Raise e => Abort (StepFailure e)
    end.
Proof.
  unfold engine_step.
  rewrite node_analyze.
  destruct (analyze_task (values ck)); [|done..].
  by rewrite successor_analyze, goto_route.
Qed.

Lemma engine_step_execute (ck : Checkpoint) :
  engine_step create_workflow "execute" ck =
    match execute_task (values ck) with
    | Ret state' =>
        Advance Stop {| values := state'; paused_at := None; version := S (version ck) |}
    | Interrupt msg =>
        Suspend msg
          {| values := values ck; paused_at := Some "execute";
             version := S (version ck) |}
    | Raise e => Abort (StepFailure e)
    end.
Proof.
  unfold engine_step.
  rewrite node_execute.
  by destruct (execute_task (values ck)).
Qed.

Lemma engine_step_reject (ck : Checkpoint) :
  engine_step create_workflow "reject" ck =
    match handle_rejection (values ck) with
    | Ret state' =>
        Advance Stop {| values := state'; paused_at := None; version := S (version ck) |}
    | Interrupt msg =>
        Suspend msg
          {| values := values ck; paused_at := Some "reject";
             version := S (version ck) |}
    | Raise e => Abort (StepFailure e)
    end.
Proof.
  unfold engine_step.
  rewrite node_reject.
  by destruct (handle_rejection (values ck)).
Qed.

Lemma run_fresh (store : gmap string Checkpoint) (thread_id task : string) :
  store !! thread_id = None ->
  run create_workflow store thread_id task =
    commit store thread_id
      (walk 3 create_workflow (Run "analyze")
         {| values := initial_state task; paused_at := None; version := 0 |}).
Proof.
  intros Hfresh. unfold run.
  by rewrite Hfresh, entry_create_workflow, budget_create_workflow.
Qed.

Lemma walk_Stop (fuel : nat) (g : StateGraph) (ck : Checkpoint) :
  walk fuel g Stop ck = Reached ck.
Proof. by destruct fuel. Qed.

Lemma walk_analyze (fuel : nat) (ck : Checkpoint) :
  walk (S fuel) create_workflow (Run "analyze") ck =
    match analyze_task (values ck) with
    | Ret state' =>
        walk fuel create_workflow (Run (route_after_analyze state'))
          {| values := state'; paused_at := None; version := S (version ck) |}
    | Interrupt msg =>
        Parked msg
          {| values := values ck; paused_at := Some "analyze";
             version := S (version ck) |}
    | Raise e => Failed (StepFailure e)
    end.
Proof.
  cbn [walk]. rewrite engine_step_analyze. by destruct (analyze_task (values ck)).
Qed.

Lemma walk_execute (fuel : nat) (ck : Checkpoint) :
  walk (S fuel) create_workflow (Run "execute") ck =
    match execute_task (values ck) with
    | Ret state' =>
        Reached {| values := state'; paused_at := None; version := S (version ck) |}
    | Interrupt msg =>
        Parked msg
          {| values := values ck; paused_at := Some "execute";
             version := S (version ck) |}
    | Raise e => Failed (StepFailure e)
    end.
Proof.
  cbn [walk]. rewrite engine_step_execute.
  destruct (execute_task (values ck)); [apply walk_Stop|done..].
Qed.

Lemma walk_reject (fuel : nat) (ck : Checkpoint) :
  walk (S fuel) create_workflow (Run "reject") ck =
    match handle_rejection (values ck) with
    | Ret state' =>
        Reached {| values := state'; paused_at := None; version := S (version ck) |}
    | Interrupt msg =>
        Parked msg
          {| values := values ck; paused_at := Some "reject";
             version := S (version ck) |}
    | Raise e => Failed (StepFailure e)
    end.
Proof.
  cbn [walk]. rewrite engine_step_reject.
  destruct (handle_rejection (values ck)); [apply walk_Stop|done..].
Qed.

Lemma route_not_rejected (state : WorkflowState) :
  state !! "approval_status" <> Some (PStr "rejected") ->
  route_after_analyze state = "execute".
Proof.
  intros Hne. unfold route_after_analyze, dict_get.
  case_decide as Hd; [|done].
  destruct (state !! "approval_status"); simpl in Hd; congruence.
Qed.

Lemma route_rejected (state : WorkflowState) :
  state !! "approval_status" = Some (PStr "rejected") ->
  route_after_analyze state = "reject".
Proof.
  intros Heq. unfold route_after_analyze, dict_get. by rewrite Heq.
Qed.

(** What [run] does on a fresh thread, by the policy's answer. *)
Lemma run_fresh_cases (store : gmap string Checkpoint) (thread_id task : string) :
  store !! thread_id = None ->
  run create_workflow store thread_id task =
    if existsb (fun keyword => str_in keyword (str_lower task)) sensitive_keywords
    then
      (<[thread_id := {| values := initial_state task; paused_at := Some "analyze";
                         version := 1 |}]> store,
       Ok (suspended (interrupt_message task)))
    else
      (<[thread_id :=
           {| values :=
                <["result" := PStr ("✅ Task auto-approved and executed:" +:+ nl +:+
                                    "📋 " +:+ task)]>
                  (<["approval_status" := PStr "auto_approved"]> (initial_state task));
              paused_at := None; version := 2 |}]> store,
       Ok (completed (PStr ("✅ Task auto-approved and executed:" +:+ nl +:+
                            "📋 " +:+ task)))).
Proof.
  intros Hfresh. rewrite (run_fresh _ _ _ Hfresh), walk_analyze.
  cbn [values]. rewrite analyze_task_initial.
  destruct (existsb _ sensitive_keywords); [done|].
  rewrite route_not_rejected by done. by rewrite walk_execute.
Qed.

(** C1: started on a fresh thread (iteration 0), [run] suspends exactly
    when the lowercased task contains one of the sensitive keywords, and
    the thread is then parked at Analyze; when no keyword occurs, Analyze
    raises no interrupt and [run] completes with approval_status
    auto_approved. *)
Theorem run_suspends_iff_sensitive (store : gmap string Checkpoint)
    (thread_id task : string) :
  store !! thread_id = None ->
  let sensitive :=
    exists keyword,
      In keyword sensitive_keywords /\ substring_of keyword (str_lower task) in
  let r := run create_workflow store thread_id task in
  (analyze_task (initial_state task) = Interrupt (interrupt_message task) <-> sensitive) /\
  ((exists message, r.2 = Ok (suspended message)) <-> sensitive) /\
  (sensitive ->
     r.2 = Ok (suspended (interrupt_message task)) /\
     thread_status r.1 thread_id = SUSPENDED /\
     paused_at <$> r.1 !! thread_id = Some (Some "analyze")) /\
  (~ sensitive ->
     (forall message, analyze_task (initial_state task) <> Interrupt message) /\
     (exists analysed final,
        analyze_task (initial_state task) = Ret analysed /\
        analysed !! "approval_status" = Some (PStr "auto_approved") /\
        route_after_analyze analysed = "execute" /\
        execute_task analysed = Ret final /\
        final !! "approval_status" = Some (PStr "auto_approved") /\
        final !! "result" =
          Some (PStr ("✅ Task auto-approved and executed:" +:+ nl +:+
                      "📋 " +:+ task))) /\
     r.2 = Ok (completed (PStr ("✅ Task auto-approved and executed:" +:+ nl +:+
                                "📋 " +:+ task))) /\
     thread_status r.1 thread_id = COMPLETED /\
     (getState r.1 thread_id ≫= fun final => final !! "approval_status")
       = Some (PStr "auto_approved")).
Proof.
  intros Hfresh sensitive r. subst r.
  rewrite (run_fresh_cases _ _ _ Hfresh), analyze_task_initial.
  pose proof (needs_approval_spec (str_lower task)) as Hspec.
  fold sensitive in Hspec. unfold thread_status, getState.
  destruct (existsb _ sensitive_keywords); cbn [fst snd].
  - assert (Hs : sensitive) by by apply Hspec.
    rewrite lookup_insert_eq. split_and!; try done.
    split; [done|]. by eexists.
  - assert (Hs : ~ sensitive) by (intros Hs; by apply Hspec in Hs).
    rewrite lookup_insert_eq. split_and!; try done.
    + split; [by intros [m ?]|done].
    + intros _. split_and!; try done. by eexists _, _.
Qed.

(** C9: the policy is substring containment on the lowercased task over
    the five fixed keywords, so a task whose words are none of the
    keywords, but one of which has a keyword inside it, is suspended all
    the same. *)
Theorem keyword_inside_word_suspends :
  sensitive_keywords = ["delete"; "remove"; "critical"; "important"; "sensitive"] /\
  (forall task,
     analyze_task (initial_state task) = Interrupt (interrupt_message task) <->
     exists keyword,
       In keyword sensitive_keywords /\ substring_of keyword (str_lower task)) /\
  ~ In "unimportant" sensitive_keywords /\ ~ In "notes" sensitive_keywords /\
  str_lower ("unimportant" +:+ " " +:+ "notes") = "un" +:+ "important" +:+ " notes" /\
  analyze_task (initial_state "unimportant notes")
    = Interrupt (interrupt_message "unimportant notes") /\
  (run create_workflow ∅ "demo_thread" "unimportant notes").2
    = Ok (suspended (interrupt_message "unimportant notes")) /\
  ~ In "removed" sensitive_keywords /\ ~ In "old" sensitive_keywords /\
  ~ In "logs" sensitive_keywords /\
  str_lower ("removed" +:+ " " +:+ "old" +:+ " " +:+ "logs")
    = "remove" +:+ "d old logs" /\
  analyze_task (initial_state "removed old logs")
    = Interrupt (interrupt_message "removed old logs") /\
  (run create_workflow ∅ "demo_thread" "removed old logs").2
    = Ok (suspended (interrupt_message "removed old logs")).
Proof.
  assert (Hno : forall w, existsb (String.eqb w) sensitive_keywords = false ->
                          ~ In w sensitive_keywords).
  { intros w Hw Hin.
    assert (existsb (String.eqb w) sensitive_keywords = true); [|congruence].
    apply existsb_exists. exists w. split; [done|apply String.eqb_refl]. }
  split_and!; try (apply Hno; reflexivity); try reflexivity.
  intros task. rewrite analyze_task_initial, <- needs_approval_spec.
  destruct (existsb _ sensitive_keywords); split; done.
Qed.

(** ** Threads and stores *)

Lemma walk_thread_reach (g : StateGraph) (fuel : nat) :
  forall c ck, thread_reach g c ck ->
  match walk fuel g c ck with
  | Reached ck' | Parked _ ck' => thread_reach g Stop ck'
  | Failed _ => True
  end.
Proof.
  induction fuel as [|fuel IH]; intros [node|] ck Hreach; cbn [walk]; try done.
  destruct (engine_step g node ck) as [c' ck'|msg ck'|e] eqn:Hstep; [| |done].
  - apply IH. by eapply reach_advance.
  - by eapply reach_suspend.
Qed.

Lemma commit_lookup (store : gmap string Checkpoint) (thread_id other : string)
    (r : walk_result) (ck : Checkpoint) :
  (commit store thread_id r).1 !! other = Some ck ->
  store !! other = Some ck \/
  (other = thread_id /\ (r = Reached ck \/ exists msg, r = Parked msg ck)).
Proof.
  destruct r as [ck'|msg ck'|e]; cbn [commit fst]; [| |by left];
    rewrite lookup_insert_Some; intros [[<- <-]|[_ H]]; eauto.
Qed.

Lemma reachable_thread_reach (g : StateGraph) (store : gmap string Checkpoint) :
  reachable g store ->
  forall thread_id ck, store !! thread_id = Some ck -> thread_reach g Stop ck.
Proof.
  induction 1 as [|store tid task _ IH|store tid d _ IH|store tid _ IH];
    intros other ck.
  - by rewrite lookup_empty.
  - unfold run. destruct (store !! tid) eqn:Htid; [apply IH|].
    destruct (edges g !! START) as [entry|] eqn:Hentry; [|apply IH].
    intros [H|[-> H]]%commit_lookup; [by eapply IH|].
    pose proof (walk_thread_reach g (walk_budget g) _ _
                  (reach_entry g task entry Hentry)) as Hw.
    destruct H as [H|[msg H]]; by rewrite H in Hw.
  - unfold resume. destruct (store !! tid) as [ck0|] eqn:Htid; [|apply IH].
    pose proof (reach_update g ck0 d (IH _ _ Htid)) as Hupdated.
    assert (Hstore : forall ck',
              <[tid := {| values := decision_update d ∪ values ck0;
                          paused_at := paused_at ck0;
                          version := S (version ck0) |}]> store !! other = Some ck' ->
              thread_reach g Stop ck').
    { intros ck'. rewrite lookup_insert_Some. intros [[_ <-]|[_ H]]; [done|by eapply IH]. }
    destruct (paused_at ck0) as [node|] eqn:Hpaused; [|apply Hstore].
    intros [H|[-> H]]%commit_lookup; [by apply Hstore|].
    pose proof (walk_thread_reach g (walk_budget g) _ _
                  (reach_reenter g ck0 node d (IH _ _ Htid) Hpaused)) as Hw.
    destruct H as [H|[msg H]]; by rewrite H in Hw.
  - unfold discard. intros [_ H]%lookup_delete_Some. by eapply IH.
Qed.

Lemma execute_task_total (state : WorkflowState) :
  holds_string (state !! "task") ->
  exists result, execute_task state = Ret (<["result" := PStr result]> state).
Proof.
  intros [task Htask]. unfold execute_task.
  rewrite (dict_item_Some _ _ _ Htask). by eexists.
Qed.

Lemma handle_rejection_total (state : WorkflowState) :
  holds_string (state !! "task") ->
  handle_rejection state =
    Ret (<["result" := PStr ("❌ Task rejected and not executed:" +:+ nl +:+ "📋 " +:+
                             py_str (dict_get state "task" PNone))]> state).
Proof.
  intros [task Htask]. unfold handle_rejection, dict_get.
  by rewrite (dict_item_Some _ _ _ Htask), Htask.
Qed.

Lemma route_cases (state : WorkflowState) :
  route_after_analyze state = "execute" \/ route_after_analyze state = "reject".
Proof. unfold route_after_analyze. case_decide; auto. Qed.

Lemma completed_inv (state : WorkflowState) (result : string) (n : nat) :
  holds_string (state !! "task") ->
  holds_string (state !! "approval_status") ->
  thread_inv Stop
    {| values := <["result" := PStr result]> state; paused_at := None; version := n |}.
Proof.
  intros Htask Hstatus. right. cbn [values paused_at].
  rewrite !lookup_insert_ne by done. rewrite lookup_insert_eq.
  split_and!; try done. by eexists.
Qed.

Lemma merged_result (d : decision) (state : WorkflowState) :
  (decision_update d ∪ state) !! "result" = state !! "result".
Proof. destruct d; by apply lookup_union_r. Qed.

Lemma merged_task (d : decision) (state : WorkflowState) :
  holds_string (state !! "task") ->
  holds_string ((decision_update d ∪ state) !! "task").
Proof.
  intros Htask. destruct d as [s|new_task].
  - by rewrite lookup_union_r.
  - eexists. by apply lookup_union_Some_l.
Qed.

Lemma decision_sets_status (d : decision) (state : WorkflowState) :
  holds_string ((decision_update d ∪ state) !! "approval_status").
Proof.
  destruct d as [s|new_task]; eexists; by apply lookup_union_Some_l.
Qed.

Lemma thread_inv_reach (c : cursor) (ck : Checkpoint) :
  thread_reach create_workflow c ck -> thread_inv c ck.
Proof.
  induction 1 as [task entry Hentry
                 |node ck c' ck' _ IH Hstep
                 |node ck msg ck' _ IH Hstep
                 |ck node d next _ IH Hpaused Hnext
                 |ck node d _ IH Hpaused
                 |ck d _ IH].
  - rewrite entry_create_workflow in Hentry. injection Hentry as <-.
    change (goto "analyze") with (Run "analyze"). cbn.
    split_and!; try done; [by eexists | by left].
  - destruct IH as (Hp & Hres & Htask & [-> | [[->| ->] Hstatus]]).
    + rewrite engine_step_analyze in Hstep.
      destruct (analyze_task (values ck)) as [state'| |] eqn:Hact; try done.
      injection Hstep as <- <-.
      destruct (analyze_task_Ret _ _ Hact) as (status & -> & _).
      assert (Hcursor : forall node, node = "execute" \/ node = "reject" ->
                thread_inv (Run node)
                  {| values := <["approval_status" := PStr status]> (values ck);
                     paused_at := None; version := S (version ck) |}).
      { intros node Hnode. cbn. rewrite !lookup_insert_ne by done.
        rewrite lookup_insert_eq. split_and!; try done.
        right. split; [done | by eexists]. }
      apply Hcursor, route_cases.
    + rewrite engine_step_execute in Hstep.
      destruct (execute_task_total _ Htask) as [result Hex]. rewrite Hex in Hstep.
      injection Hstep as <- <-. by apply completed_inv.
    + rewrite engine_step_reject, (handle_rejection_total _ Htask) in Hstep.
      injection Hstep as <- <-. by apply completed_inv.
  - destruct IH as (Hp & Hres & Htask & [-> | [[->| ->] Hstatus]]).
    + rewrite engine_step_analyze in Hstep.
      destruct (analyze_task (values ck)) as [state'| |]; try done.
      injection Hstep as <- <-. by left.
    + rewrite engine_step_execute in Hstep.
      destruct (execute_task_total _ Htask) as [result Hex]. by rewrite Hex in Hstep.
    + by rewrite engine_step_reject, (handle_rejection_total _ Htask) in Hstep.
  - destruct IH as [(Hp & Hres & Htask) | (Hp & _)]; [|congruence].
    rewrite Hp in Hpaused. injection Hpaused as <-.
    rewrite successor_analyze in Hnext. injection Hnext as <-.
    rewrite goto_route. cbn [thread_inv values paused_at].
    rewrite merged_result. split_and!; try done; [by apply merged_task|].
    right. split; [apply route_cases | apply decision_sets_status].
  - destruct IH as [(Hp & Hres & Htask) | (Hp & _)]; [|congruence].
    rewrite Hp in Hpaused. injection Hpaused as <-.
    cbn [thread_inv values paused_at]. rewrite merged_result.
    split_and!; try done; [by apply merged_task | by left].
  - cbn [thread_inv values paused_at]. rewrite merged_result.
    destruct IH as [(Hp & Hres & Htask) | (Hp & Htask & _ & Hres)].
    + left. split_and!; try done. by apply merged_task.
    + right. split_and!; try done;
        [by apply merged_task | apply decision_sets_status].
Qed.

Lemma analyze_task_modified_pass (state : WorkflowState) (task : pyval) (i : Z) :
  state !! "task" = Some task ->
  state !! "iteration" = Some (PInt i) ->
  (0 < i)%Z ->
  analyze_task state = Ret (<["approval_status" := PStr "modified"]> state).
Proof.
  intros Htask Hiter Hpos. unfold analyze_task, dict_get.
  rewrite (dict_item_Some _ _ _ Htask), Hiter. cbn.
  by rewrite (proj2 (Z.ltb_lt 0 i) Hpos).
Qed.

Lemma analyze_task_parked (task : string) (status : pyval) :
  analyze_task (parked_state task status) =
    if existsb (fun keyword => str_in keyword (str_lower task)) sensitive_keywords
    then Interrupt (interrupt_message task)
    else Ret (<["approval_status" := PStr "auto_approved"]> (parked_state task status)).
Proof. reflexivity. Qed.

Lemma merged_decision (task : string) (status : pyval) (s : string) :
  decision_update (Decide s) ∪ parked_state task status = parked_state task (PStr s).
Proof. reflexivity. Qed.

Lemma merged_modification (task : string) (status : pyval) (new_task : string) :
  decision_update (Modify new_task) ∪ parked_state task status =
    decision_update (Modify new_task) ∪ initial_state task.
Proof. reflexivity. Qed.

Lemma resume_parked (store : gmap string Checkpoint) (thread_id : string)
    (ck : Checkpoint) (d : decision) :
  store !! thread_id = Some ck ->
  paused_at ck = Some "analyze" ->
  resume create_workflow store thread_id d =
    commit
      (<[thread_id := {| values := decision_update d ∪ values ck;
                         paused_at := Some "analyze";
                         version := S (version ck) |}]> store)
      thread_id
      (walk 3 create_workflow (Run "analyze")
         {| values := decision_update d ∪ values ck; paused_at := None;
            version := S (version ck) |}).
Proof.
  intros Hck Hpaused. unfold resume.
  by rewrite Hck, Hpaused, budget_create_workflow.
Qed.

(** An approve or reject decision on a parked thread: Analyze runs again
    on the merged state, at iteration 0, and raises its interrupt again. *)
Lemma resume_parked_decide (store : gmap string Checkpoint) (thread_id : string)
    (ck : Checkpoint) (task : string) (status : pyval) (s : string) :
  store !! thread_id = Some ck ->
  paused_at ck = Some "analyze" ->
  values ck = parked_state task status ->
  existsb (fun keyword => str_in keyword (str_lower task)) sensitive_keywords = true ->
  resume create_workflow store thread_id (Decide s) =
    (<[thread_id :=
         {| values := parked_state task (PStr s); paused_at := Some "analyze";
            version := S (S (version ck)) |}]> store,
     Ok (suspended (interrupt_message task))).
Proof.
  intros Hck Hpaused Hv Hneeds.
  rewrite (resume_parked _ _ _ _ Hck Hpaused), Hv, merged_decision, walk_analyze.
  cbn [values]. rewrite analyze_task_parked, Hneeds.
  cbn [commit values version]. by rewrite insert_insert_eq.
Qed.

(** A modify decision on a parked thread: Analyze runs again, at
    iteration 1, and passes the thread on to Execute. *)
Lemma resume_parked_modify (store : gmap string Checkpoint) (thread_id : string)
    (ck : Checkpoint) (task : string) (status : pyval) (new_task : string) :
  store !! thread_id = Some ck ->
  paused_at ck = Some "analyze" ->
  values ck = parked_state task status ->
  resume create_workflow store thread_id (Modify new_task) =
    (<[thread_id :=
         {| values :=
              <["result" := PStr ("📝 Modified task executed successfully:" +:+ nl +:+
                                  "📋 " +:+ new_task)]>
                (decision_update (Modify new_task) ∪ initial_state task);
            paused_at := None; version := S (S (S (version ck))) |}]> store,
     Ok (completed (PStr ("📝 Modified task executed successfully:" +:+ nl +:+
                          "📋 " +:+ new_task)))).
Proof.
  intros Hck Hpaused Hv.
  rewrite (resume_parked _ _ _ _ Hck Hpaused), Hv, merged_modification, walk_analyze.
  cbn [values].
  rewrite (analyze_task_modified_pass _ (PStr new_task) 1) by done.
  rewrite route_not_rejected by done. rewrite walk_execute. cbn [values version].
  assert (Hexecute :
    execute_task (<["approval_status" := PStr "modified"]>
                    (decision_update (Modify new_task) ∪ initial_state task)) =
      Ret (<["result" := PStr ("📝 Modified task executed successfully:" +:+ nl +:+
                               "📋 " +:+ new_task)]>
             (decision_update (Modify new_task) ∪ initial_state task)))
    by reflexivity.
  rewrite Hexecute. cbn [commit values]. by rewrite insert_insert_eq.
Qed.

(** A decision on a thread with nothing pending: the merge is written,
    and no step runs. *)
Lemma resume_completed (g : StateGraph) (store : gmap string Checkpoint)
    (thread_id : string) (ck : Checkpoint) (d : decision) :
  store !! thread_id = Some ck ->
  paused_at ck = None ->
  resume g store thread_id d =
    (<[thread_id := {| values := decision_update d ∪ values ck; paused_at := None;
                       version := S (version ck) |}]> store,
     Ok (completed (dict_get (decision_update d ∪ values ck) "result" PNone))).
Proof. intros Hck Hpaused. unfold resume. by rewrite Hck, Hpaused. Qed.

Lemma run_not_fresh (g : StateGraph) (store : gmap string Checkpoint)
    (thread_id task : string) (ck : Checkpoint) :
  store !! thread_id = Some ck ->
  run g store thread_id task = (store, Err InvalidTransition).
Proof. intros Hck. unfold run. by rewrite Hck. Qed.

Lemma resume_unknown (g : StateGraph) (store : gmap string Checkpoint)
    (thread_id : string) (d : decision) :
  store !! thread_id = None ->
  resume g store thread_id d = (store, Err UnknownThread).
Proof. intros Hck. unfold resume. by rewrite Hck. Qed.



Lemma reachable_checkpoint_inv (store : gmap string Checkpoint) :
  reachable create_workflow store ->
  forall thread_id ck, store !! thread_id = Some ck -> checkpoint_inv ck.
Proof.
  induction 1 as [|store tid task _ IH|store tid d _ IH|store tid _ IH];
    intros other ck.
  - by rewrite lookup_empty.
  - destruct (store !! tid) as [ck0|] eqn:Htid.
    { rewrite (run_not_fresh _ _ _ _ _ Htid). apply IH. }
    rewrite (run_fresh_cases _ _ _ Htid).
    destruct (existsb _ sensitive_keywords) eqn:Hneeds; cbn [fst];
      rewrite lookup_insert_Some; (intros [[_ <-]|[_ Hck]]; [|by eapply IH]).
    + left. split; [done|]. by exists task, PNone.
    + right. cbn. split_and!; try done; by eexists.
  - destruct (store !! tid) as [ck0|] eqn:Htid;
      [|rewrite (resume_unknown _ _ _ _ Htid); apply IH].
    destruct (IH _ _ Htid)
      as [(Hp & task & status & Hv & Hneeds) | (Hp & Htask & _ & Hres)].
    + destruct d as [s|new_task].
      * rewrite (resume_parked_decide _ _ _ _ _ s Htid Hp Hv Hneeds). cbn [fst].
        rewrite lookup_insert_Some. intros [[_ <-]|[_ Hck]]; [|by eapply IH].
        left. split; [done|]. by exists task, (PStr s).
      * rewrite (resume_parked_modify _ _ _ _ _ new_task Htid Hp Hv). cbn [fst].
        rewrite lookup_insert_Some. intros [[_ <-]|[_ Hck]]; [|by eapply IH].
        right. cbn. split_and!; try done; by eexists.
    + rewrite (resume_completed _ _ _ _ d Htid Hp). cbn [fst].
      rewrite lookup_insert_Some. intros [[_ <-]|[_ Hck]]; [|by eapply IH].
      right. cbn [values paused_at]. rewrite merged_result.
      split_and!; [done | by apply merged_task | apply decision_sets_status | done].
  - unfold discard. intros [_ H]%lookup_delete_Some. by eapply IH.
Qed.

Lemma suspended_thread (store : gmap string Checkpoint) (thread_id : string) :
  reachable create_workflow store ->
  thread_status store thread_id = SUSPENDED ->
  exists ck task status,
    store !! thread_id = Some ck /\
    paused_at ck = Some "analyze" /\
    values ck = parked_state task status /\
    existsb (fun keyword => str_in keyword (str_lower task)) sensitive_keywords = true.
Proof.
  intros Hreach Hstatus. unfold thread_status in Hstatus.
  destruct (store !! thread_id) as [ck|] eqn:Hck; [|done].
  destruct (paused_at ck) as [node|] eqn:Hpaused; [|done].
  destruct (reachable_checkpoint_inv _ Hreach _ _ Hck)
    as [(Hp & task & status & Hv & Hneeds) | (Hp & _)]; [|congruence].
  by exists ck, task, status.
Qed.

Lemma terminal_nodes_no_interrupt (state : WorkflowState) (message : string) :
  execute_task state <> Interrupt message /\
  handle_rejection state <> Interrupt message.
Proof.
  unfold execute_task, handle_rejection, dict_item.
  by destruct (state !! "task").
Qed.

(** C5: on a suspended thread of a reachable store, [resume] with an
    approve or reject decision (any decision that is not a modification)
    does not complete. The merge sets approval_status and leaves iteration
    at 0; the walk re-enters at Analyze, which on that state raises its
    interrupt again; the outcome is suspended, the thread stays SUSPENDED
    at Analyze and its result stays unset. Execute and Reject, which raise
    no interrupt on any state, are not reached. *)
Theorem resume_decision_suspends_again (store : gmap string Checkpoint)
    (thread_id s : string) :
  reachable create_workflow store ->
  thread_status store thread_id = SUSPENDED ->
  exists ck task,
    store !! thread_id = Some ck /\
    values ck !! "task" = Some (PStr task) /\
    values ck !! "iteration" = Some (PInt 0) /\
    let merged := decision_update (Decide s) ∪ values ck in
    let r := resume create_workflow store thread_id (Decide s) in
    merged !! "approval_status" = Some (PStr s) /\
    merged !! "iteration" = Some (PInt 0) /\
    analyze_task merged = Interrupt (interrupt_message task) /\
    r.2 = Ok (suspended (interrupt_message task)) /\
    (forall result, r.2 <> Ok (completed result)) /\
    thread_status r.1 thread_id = SUSPENDED /\
    paused_at <$> r.1 !! thread_id = Some (Some "analyze") /\
    (getState r.1 thread_id ≫= fun state => state !! "result") = Some PNone /\
    (getState r.1 thread_id ≫= fun state => state !! "approval_status")
      = Some (PStr s) /\
    (forall state message,
       execute_task state <> Interrupt message /\
       handle_rejection state <> Interrupt message).
Proof.
  intros Hreach Hstatus.
  destruct (suspended_thread _ _ Hreach Hstatus)
    as (ck & task & status & Hck & Hpaused & Hv & Hneeds).
  exists ck, task. split; [done|]. rewrite Hv. split; [done|]. split; [done|].
  intros merged r. subst merged r.
  rewrite (resume_parked_decide _ _ _ _ _ s Hck Hpaused Hv Hneeds).
  rewrite merged_decision, analyze_task_parked, Hneeds.
  unfold thread_status, getState. cbn [fst snd]. rewrite lookup_insert_eq.
  split_and!; try done. apply terminal_nodes_no_interrupt.
Qed.


(** C2: on a suspended thread of a reachable store, the modify decision
    merges the new task, approval_status modified and iteration 1 (the
    parked iteration, 0, plus one); Analyze applied to a state whose
    iteration is positive answers modified whatever the task, so on the
    merged state, where the walk re-enters, it changes nothing; and
    [resume] completes with the message for a modified task built from the
    new task alone. *)
Theorem resume_modified_spec (store : gmap string Checkpoint)
    (thread_id new_task : string) :
  reachable create_workflow store ->
  thread_status store thread_id = SUSPENDED ->
  exists ck original,
    store !! thread_id = Some ck /\
    values ck !! "task" = Some (PStr original) /\
    let merged := decision_update (Modify new_task) ∪ values ck in
    let r := resume create_workflow store thread_id (Modify new_task) in
    merged !! "task" = Some (PStr new_task) /\
    merged !! "approval_status" = Some (PStr "modified") /\
    (exists i, values ck !! "iteration" = Some (PInt i) /\
               merged !! "iteration" = Some (PInt (i + 1)) /\ (i + 1 = 1)%Z) /\
    (forall state task i,
       state !! "task" = Some task -> state !! "iteration" = Some (PInt i) ->
       (0 < i)%Z ->
       analyze_task state = Ret (<["approval_status" := PStr "modified"]> state)) /\
    analyze_task merged = Ret merged /\
    r.2 = Ok (completed (PStr ("📝 Modified task executed successfully:" +:+ nl +:+
                               "📋 " +:+ new_task))) /\
    thread_status r.1 thread_id = COMPLETED /\
    (getState r.1 thread_id ≫= fun final => final !! "task") = Some (PStr new_task) /\
    (getState r.1 thread_id ≫= fun final => final !! "iteration") = Some (PInt 1).
Proof.
  intros Hreach Hstatus.
  destruct (suspended_thread _ _ Hreach Hstatus)
    as (ck & task & status & Hck & Hpaused & Hv & _).
  exists ck, task. split; [done|]. split; [by rewrite Hv|].
  intros merged r. subst merged r.
  rewrite (resume_parked_modify _ _ _ _ _ new_task Hck Hpaused Hv), Hv.
  unfold thread_status, getState. cbn [fst snd]. rewrite lookup_insert_eq.
  split_and!; try done.
  - by exists 0%Z.
  - apply analyze_task_modified_pass.
Qed.

Lemma execute_task_cases (state : WorkflowState) (task : pyval) :
  state !! "task" = Some task ->
  exists text,
    (text = "✅ Task approved and executed:" \/
     text = "📝 Modified task executed successfully:" \/
     text = "✅ Task auto-approved and executed:" \/
     text = "✅ Task completed:") /\
    execute_task state =
      Ret (<["result" := PStr (text +:+ nl +:+ "📋 " +:+ py_str task)]> state).
Proof.
  intros Htask. unfold execute_task. rewrite (dict_item_Some _ _ _ Htask).
  unfold mbind, outcome_bind.
  destruct (dict_get state "approval_status" (PStr "unknown")) as [|s|z];
    try (eexists; split; [|reflexivity]; auto).
  destruct (decide (s = "approved")) as [->|H1];
    [eexists; split; [|reflexivity]; auto|].
  destruct (decide (s = "modified")) as [->|H2];
    [eexists; split; [|reflexivity]; auto|].
  destruct (decide (s = "auto_approved")) as [->|H3];
    [eexists; split; [|reflexivity]; auto|].
  exists "✅ Task completed:". split; [auto|].
  unfold str_dict_get, status_messages.
  by rewrite !lookup_insert_ne, lookup_singleton_ne by done.
Qed.

(** C4: on a suspended thread of a reachable store, [resume] with
    rejected does not reach the Reject step. On the merged state the router
    answers reject and Reject would write its message, but the walk
    re-enters at Analyze, which on that state, still at iteration 0, raises
    its interrupt again: the outcome is suspended, the thread stays parked
    at Analyze, and no result is written. *)
Theorem resume_rejected_suspends_again (store : gmap string Checkpoint)
    (thread_id : string) :
  reachable create_workflow store ->
  thread_status store thread_id = SUSPENDED ->
  exists ck task,
    store !! thread_id = Some ck /\
    values ck !! "task" = Some (PStr task) /\
    let merged := decision_update (Decide "rejected") ∪ values ck in
    let r := resume create_workflow store thread_id (Decide "rejected") in
    let message := "❌ Task rejected and not executed:" +:+ nl +:+ "📋 " +:+ task in
    route_after_analyze merged = "reject" /\
    handle_rejection merged = Ret (<["result" := PStr message]> merged) /\
    analyze_task merged = Interrupt (interrupt_message task) /\
    r.2 = Ok (suspended (interrupt_message task)) /\
    r.2 <> Ok (completed (PStr message)) /\
    thread_status r.1 thread_id = SUSPENDED /\
    paused_at <$> r.1 !! thread_id = Some (Some "analyze") /\
    (getState r.1 thread_id ≫= fun state => state !! "result") = Some PNone.
Proof.
  intros Hreach Hstatus.
  destruct (suspended_thread _ _ Hreach Hstatus)
    as (ck & task & status & Hck & Hpaused & Hv & Hneeds).
  exists ck, task. split; [done|]. rewrite Hv. split; [done|].
  intros merged r message. subst merged r message.
  rewrite (resume_parked_decide _ _ _ _ _ "rejected" Hck Hpaused Hv Hneeds).
  rewrite merged_decision, analyze_task_parked, Hneeds.
  unfold thread_status, getState. cbn [fst snd]. rewrite lookup_insert_eq.
  by split_and!.
Qed.

(** Analyze applied again to the state of a parked thread, after the merge
    of an approve or reject decision, raises the interrupt again: only the
    modify decision, which sets iteration to 1, gets a thread past it. *)
Remark analyze_task_after_decision (task s : string) :
  existsb (fun keyword => str_in keyword (str_lower task)) sensitive_keywords = true ->
  analyze_task (decision_update (Decide s) ∪ initial_state task)
    = Interrupt (interrupt_message task).
Proof.
  intros Hneeds.
  change (analyze_task (decision_update (Decide s) ∪ initial_state task))
    with (if existsb (fun keyword => str_in keyword (str_lower task)) sensitive_keywords
          then Interrupt (interrupt_message task)
          else Ret (<["approval_status" := PStr "auto_approved"]>
                      (decision_update (Decide s) ∪ initial_state task))).
  by rewrite Hneeds.
Qed.

Lemma analyze_task_effect (state state' : WorkflowState) :
  analyze_task state = Ret state' ->
  state' !! "result" = state !! "result" /\
  holds_string (state' !! "approval_status").
Proof.
  intros (status & -> & _)%analyze_task_Ret.
  rewrite lookup_insert_ne by done. rewrite lookup_insert_eq. split; [done|by eexists].
Qed.

Lemma terminal_node_effect (state state' : WorkflowState) :
  execute_task state = Ret state' \/ handle_rejection state = Ret state' ->
  holds_string (state' !! "result") /\
  state' !! "approval_status" = state !! "approval_status".
Proof.
  intros [(result & ->)%execute_task_Ret | (result & ->)%handle_rejection_Ret];
    rewrite lookup_insert_eq; rewrite lookup_insert_ne by done;
    (split; [by eexists|done]).
Qed.

Lemma engine_step_keeps_status (node : string) (ck : Checkpoint) (c' : cursor)
    (ck' : Checkpoint) :
  engine_step create_workflow node ck = Advance c' ck' ->
  holds_string (values ck !! "approval_status") ->
  holds_string (values ck' !! "approval_status").
Proof.
  unfold engine_step.
  destruct (nodes create_workflow !! node) as [action|] eqn:Hnode; [|done].
  destruct (action (values ck)) as [state'| |] eqn:Hact; [|done..].
  destruct (successor create_workflow node state'); [|done].
  intros [= _ <-] Hset. cbn [values].
  destruct (nodes_create_workflow _ _ Hnode) as [[_ ->]|[[_ ->]|[_ ->]]].
  - by apply (analyze_task_effect (values ck)).
  - destruct (terminal_node_effect (values ck) state') as [_ ->]; auto.
  - destruct (terminal_node_effect (values ck) state') as [_ ->]; auto.
Qed.

(** C8: wherever a thread of the workflow stands, its result is set
    exactly when it has reached a terminal step. Analyze leaves result as
    it is and sets approval_status to a string; Execute and Reject set
    result and leave approval_status as it is; the merge of a decision sets
    approval_status to a string; so no step of the walk and no suspension
    takes a set approval_status back to unset. *)
Theorem result_iff_terminal (c : cursor) (ck : Checkpoint) :
  thread_reach create_workflow c ck ->
  (holds_string (values ck !! "result") <-> c = Stop /\ paused_at ck = None) /\
  (forall store thread_id stored,
     reachable create_workflow store ->
     store !! thread_id = Some stored ->
     (holds_string (values stored !! "result") <->
      thread_status store thread_id = COMPLETED)) /\
  (forall state state' : WorkflowState,
     analyze_task state = Ret state' ->
     state' !! "result" = state !! "result" /\
     holds_string (state' !! "approval_status")) /\
  (forall state state' : WorkflowState,
     execute_task state = Ret state' \/ handle_rejection state = Ret state' ->
     holds_string (state' !! "result") /\
     state' !! "approval_status" = state !! "approval_status") /\
  (forall (d : decision) (state : WorkflowState),
     holds_string ((decision_update d ∪ state) !! "approval_status")) /\
  (forall node ck0 c' ck',
     engine_step create_workflow node ck0 = Advance c' ck' ->
     holds_string (values ck0 !! "approval_status") ->
     holds_string (values ck' !! "approval_status")) /\
  (forall node ck0 msg ck',
     engine_step create_workflow node ck0 = Suspend msg ck' ->
     values ck' = values ck0).
Proof.
  intros Hinv%thread_inv_reach. split_and!.
  - destruct c as [node|]; cbn in Hinv.
    + destruct Hinv as (_ & Hres & _). rewrite Hres.
      split; [by intros [s ?] | by intros [? _]].
    + destruct Hinv as [(Hp & Hres & _) | (Hp & _ & _ & Hres)].
      * rewrite Hres, Hp. split; [by intros [s ?] | by intros [_ ?]].
      * done.
  - intros store thread_id stored Hreach Hstored.
    pose proof (thread_inv_reach _ _
                  (reachable_thread_reach _ _ Hreach _ _ Hstored)) as Hst.
    unfold thread_status. rewrite Hstored.
    destruct Hst as [(Hp & Hres & _) | (Hp & _ & _ & Hres)]; rewrite Hp.
    + rewrite Hres. split; [by intros [s ?] | done].
    + done.
  - apply analyze_task_effect.
  - apply terminal_node_effect.
  - intros d state. apply decision_sets_status.
  - apply engine_step_keeps_status.
  - intros node ck0 msg ck'. unfold engine_step.
    destruct (nodes create_workflow !! node) as [action|]; [|done].
    destruct (action (values ck0)) as [state'| |]; [|by intros [= _ <-]|done].
    by destruct (successor create_workflow node state').
Qed.

(** ** Further properties of the nodes *)

Lemma analyze_task_cases (state : WorkflowState) :
  analyze_task state =
    match state !! "task" with
    | None => Raise (KeyError "task")
    | Some task =>
        match dict_get state "iteration" (PInt 0) with
        | PInt z =>
            if (0 <? z)%Z then Ret (<["approval_status" := PStr "modified"]> state)
            else
              match task with
              | PStr t =>
                  if existsb (fun keyword => str_in keyword (str_lower t))
                       sensitive_keywords
                  then Interrupt (interrupt_message t)
                  else Ret (<["approval_status" := PStr "auto_approved"]> state)
              | _ => Raise AttributeError
              end
        | _ => Raise TypeError
        end
    end.
Proof.
  unfold analyze_task, dict_item.
  destruct (state !! "task") as [task|]; [|done].
  destruct (dict_get state "iteration" (PInt 0)) as [|s|z]; try done.
  unfold mbind, outcome_bind, py_gt_zero.
  destruct (0 <? z)%Z; [done|]. by destruct task.
Qed.

(** X1: whenever Analyze returns, the router sends the state it returns to
    Execute: Analyze writes modified or auto_approved, never rejected. *)
Theorem analyze_task_routes_to_execute (state state' : WorkflowState) :
  analyze_task state = Ret state' ->
  route_after_analyze state' = "execute" /\
  (state' !! "approval_status" = Some (PStr "modified") \/
   state' !! "approval_status" = Some (PStr "auto_approved")).
Proof.
  intros (status & -> & Hstatus)%analyze_task_Ret.
  rewrite lookup_insert_eq. split.
  - apply route_not_rejected. rewrite lookup_insert_eq.
    destruct Hstatus as [-> | ->]; discriminate.
  - destruct Hstatus as [-> | ->]; auto.
Qed.

(** X2: Analyze is idempotent: applied to a state it returned, it returns
    that state again. *)
Theorem analyze_task_idempotent (state state' : WorkflowState) :
  analyze_task state = Ret state' ->
  analyze_task state' = Ret state'.
Proof.
  intros H. pose proof H as (status & -> & _)%analyze_task_Ret.
  revert H. unfold analyze_task, dict_item, dict_get.
  rewrite !lookup_insert_ne by done.
  destruct (state !! "task") as [task|]; [|done]. cbn.
  destruct (py_gt_zero _) as [[|]| |]; cbn; try done.
  - intros [= H]. f_equal. rewrite <- H at 2. by rewrite insert_insert_eq.
  - destruct (py_lower task) as [lowered| |]; cbn; try done.
    match goal with |- context [if ?b then _ else _] => destruct b end; [done|].
    intros [= H]. f_equal. rewrite <- H at 2. by rewrite insert_insert_eq.
Qed.

(** X3: the exceptions of Analyze. It raises KeyError only for the key
    task, exactly when the state has none; TypeError exactly when there is
    a task and iteration holds something that is not an integer;
    AttributeError exactly when the task is not a string and iteration is
    missing or not positive. *)
Theorem analyze_task_errors (state : WorkflowState) :
  (forall k, analyze_task state = Raise (KeyError k) <->
             k = "task" /\ state !! "task" = None) /\
  (analyze_task state = Raise TypeError <->
     is_Some (state !! "task") /\
     exists v, state !! "iteration" = Some v /\ forall z, v <> PInt z) /\
  (analyze_task state = Raise AttributeError <->
     exists task,
       state !! "task" = Some task /\ (forall s, task <> PStr s) /\
       (state !! "iteration" = None \/
        exists z, state !! "iteration" = Some (PInt z) /\ (z <= 0)%Z)).
Proof.
  rewrite analyze_task_cases. unfold dict_get.
  destruct (state !! "task") as [task|]; [|naive_solver].
  destruct (state !! "iteration") as [[|s|z]|]; simpl; [naive_solver..| |].
  - destruct (Z.ltb_spec 0 z); [naive_solver lia|].
    destruct task as [|t|n]; [naive_solver | | naive_solver].
    match goal with |- context [if ?b then _ else _] => destruct b end; naive_solver.
  - destruct task as [|t|n]; [naive_solver | | naive_solver].
    match goal with |- context [if ?b then _ else _] => destruct b end; naive_solver.
Qed.

(** X4: with a string task and an iteration that is missing or not
    positive, Analyze consults the keyword policy and nothing else: what
    approval_status and result hold plays no part, a missing iteration
    counts as 0 and a negative one does not skip the approval. *)
Theorem analyze_task_consults_policy (state : WorkflowState) (task : string) :
  state !! "task" = Some (PStr task) ->
  (state !! "iteration" = None \/
   exists z, state !! "iteration" = Some (PInt z) /\ (z <= 0)%Z) ->
  let sensitive :=
    exists keyword,
      In keyword sensitive_keywords /\ substring_of keyword (str_lower task) in
  (sensitive -> analyze_task state = Interrupt (interrupt_message task)) /\
  (~ sensitive ->
   analyze_task state = Ret (<["approval_status" := PStr "auto_approved"]> state)).
Proof.
  intros Htask Hiter sensitive.
  assert (Hcase : analyze_task state =
            if existsb (fun keyword => str_in keyword (str_lower task))
                 sensitive_keywords
            then Interrupt (interrupt_message task)
            else Ret (<["approval_status" := PStr "auto_approved"]> state)).
  { rewrite analyze_task_cases, Htask. unfold dict_get.
    destruct Hiter as [-> | (z & -> & Hz)]; [done|]. simpl.
    by destruct (Z.ltb_spec 0 z); [lia|]. }
  rewrite Hcase. pose proof (needs_approval_spec (str_lower task)) as Hspec.
  fold sensitive in Hspec.
  destruct (existsb _ sensitive_keywords); split; try done.
  - intros Hn. destruct Hn. by apply Hspec.
  - intros Hs. by apply Hspec in Hs.
Qed.

(** X5: Execute and Reject need the task key and nothing else. Without
    it both raise KeyError for task; with it both return, whatever
    approval_status, iteration and result hold or lack. *)
Theorem terminal_nodes_need_only_task (state : WorkflowState) :
  (state !! "task" = None ->
   execute_task state = Raise (KeyError "task") /\
   handle_rejection state = Raise (KeyError "task")) /\
  (is_Some (state !! "task") ->
   (exists state', execute_task state = Ret state') /\
   (exists state', handle_rejection state = Ret state')) /\
  (forall e, execute_task state = Raise e \/ handle_rejection state = Raise e ->
             e = KeyError "task" /\ state !! "task" = None).
Proof.
  unfold execute_task, handle_rejection, dict_item.
  destruct (state !! "task") as [task|]; split_and!.
  - done.
  - intros _. split; by eexists.
  - by intros e [?|?].
  - done.
  - by intros [? ?].
  - by intros e [[= <-]|[= <-]].
Qed.

(** X6: the result Execute writes depends on the state only through task
    and approval_status, and the result Reject writes only through task:
    states that agree on these keys get the same result. *)
Theorem result_depends_on_task_and_status (s1 s2 r1 : WorkflowState) :
  s1 !! "task" = s2 !! "task" ->
  (s1 !! "approval_status" = s2 !! "approval_status" ->
   execute_task s1 = Ret r1 ->
   exists r2, execute_task s2 = Ret r2 /\ r2 !! "result" = r1 !! "result") /\
  (handle_rejection s1 = Ret r1 ->
   exists r2, handle_rejection s2 = Ret r2 /\ r2 !! "result" = r1 !! "result").
Proof.
  intros Htask. unfold execute_task, handle_rejection, dict_item, dict_get.
  rewrite <- Htask. destruct (s1 !! "task") as [task|]; [|done]. split.
  - intros <-. intros [= <-]. eexists. split; [done|].
    by rewrite !lookup_insert_eq.
  - intros [= <-]. eexists. split; [done|]. by rewrite !lookup_insert_eq.
Qed.

Lemma substring_of_suffix (pre s : string) : substring_of s (pre +:+ s).
Proof.
  exists pre, EmptyString. f_equal.
  induction s as [|c s IH]; [done|]. by rewrite append_cons, <- IH.
Qed.

Lemma append_assoc (a b c : string) : (a +:+ b) +:+ c = a +:+ b +:+ c.
Proof. induction a as [|x a IH]; [done|]. by rewrite !append_cons, IH. Qed.

(** X7: every message the nodes produce quotes the task as formatted: the
    interrupt of Analyze contains it, and the results of Execute and
    Reject end with it. *)
Theorem node_messages_quote_task (state : WorkflowState) (task : pyval) :
  state !! "task" = Some task ->
  (forall msg, analyze_task state = Interrupt msg -> substring_of (py_str task) msg) /\
  (forall state',
     execute_task state = Ret state' \/ handle_rejection state = Ret state' ->
     exists head,
       state' !! "result" = Some (PStr (head +:+ py_str task)) /\
       substring_of (py_str task) (head +:+ py_str task)).
Proof.
  intros Htask. split.
  - intros msg. rewrite analyze_task_cases, Htask.
    destruct (dict_get state "iteration" (PInt 0)) as [|s|z]; try done.
    destruct (0 <? z)%Z; [done|]. destruct task as [|t|n]; try done.
    match goal with |- context [if ?b then _ else _] => destruct b end; [|done].
    intros [= <-]. unfold interrupt_message.
    exists ("🔔 Task requires human approval:" +:+ nl +:+ "📋 Task: "),
           (nl +:+ "Please choose: Approve / Reject / Modify").
    by rewrite !append_assoc.
  - intros state' [Hex | Hrej].
    + destruct (execute_task_cases _ _ Htask) as (text & _ & Hcase).
      rewrite Hcase in Hex. injection Hex as <-.
      exists (text +:+ nl +:+ "📋 "). rewrite lookup_insert_eq.
      rewrite !append_assoc. split; [done|].
      rewrite <- (append_assoc nl), <- (append_assoc text).
      apply substring_of_suffix.
    + unfold handle_rejection in Hrej. rewrite (dict_item_Some _ _ _ Htask) in Hrej.
      injection Hrej as <-.
      exists ("❌ Task rejected and not executed:" +:+ nl +:+ "📋 ").
      rewrite lookup_insert_eq, !append_assoc. split; [done|].
      rewrite <- (append_assoc nl), <- (append_assoc _ (nl +:+ _)).
      apply substring_of_suffix.
Qed.

Lemma append_cancel_l (a b c : string) : a +:+ b = a +:+ c -> b = c.
Proof.
  induction a as [|x a IH]; [done|]. rewrite !append_cons. intros [= H]. auto.
Qed.

Lemma execute_task_header (state : WorkflowState) (task : pyval) :
  state !! "task" = Some task ->
  exists header,
    execute_task state =
      Ret (<["result" := PStr (header +:+ nl +:+ "📋 " +:+ py_str task)]> state) /\
    ((state !! "approval_status" = Some (PStr "approved") /\
      header = "✅ Task approved and executed:") \/
     (state !! "approval_status" = Some (PStr "modified") /\
      header = "📝 Modified task executed successfully:") \/
     (state !! "approval_status" = Some (PStr "auto_approved") /\
      header = "✅ Task auto-approved and executed:") \/
     (state !! "approval_status" <> Some (PStr "approved") /\
      state !! "approval_status" <> Some (PStr "modified") /\
      state !! "approval_status" <> Some (PStr "auto_approved") /\
      header = "✅ Task completed:")).
Proof.
  intros Htask. unfold execute_task. rewrite (dict_item_Some _ _ _ Htask).
  unfold mbind, outcome_bind, dict_get.
  destruct (state !! "approval_status") as [[|s|z]|];
    try (eexists; split; [reflexivity|]; repeat right; by split_and!).
  destruct (decide (s = "approved")) as [->|H1];
    [eexists; split; [reflexivity|]; auto|].
  destruct (decide (s = "modified")) as [->|H2];
    [eexists; split; [reflexivity|]; auto|].
  destruct (decide (s = "auto_approved")) as [->|H3];
    [eexists; split; [reflexivity|]; auto 6|].
  exists "✅ Task completed:". split.
  - unfold str_dict_get, status_messages. cbn [default id].
    by rewrite !lookup_insert_ne, lookup_singleton_ne by done.
  - repeat right. split_and!; congruence.
Qed.

(** X8: the result of Execute tells the outcome apart: two runs of Execute
    that write the same result had the same formatted task and agreed on
    whether approval_status was approved, modified, auto_approved or none
    of these. *)
Theorem execute_result_identifies (s1 s2 r1 r2 : WorkflowState) :
  execute_task s1 = Ret r1 ->
  execute_task s2 = Ret r2 ->
  r1 !! "result" = r2 !! "result" ->
  py_str <$> s1 !! "task" = py_str <$> s2 !! "task" /\
  forall k, k = "approved" \/ k = "modified" \/ k = "auto_approved" ->
    (s1 !! "approval_status" = Some (PStr k) <->
     s2 !! "approval_status" = Some (PStr k)).
Proof.
  intros H1 H2.
  destruct (s1 !! "task") as [t1|] eqn:Ht1;
    [|by unfold execute_task, dict_item in H1; rewrite Ht1 in H1].
  destruct (s2 !! "task") as [t2|] eqn:Ht2;
    [|by unfold execute_task, dict_item in H2; rewrite Ht2 in H2].
  destruct (execute_task_header _ _ Ht1) as (h1 & E1 & C1).
  destruct (execute_task_header _ _ Ht2) as (h2 & E2 & C2).
  rewrite E1 in H1. rewrite E2 in H2. injection H1 as <-. injection H2 as <-.
  rewrite !lookup_insert_eq. intros [= H]. cbn.
  destruct C1 as [[A1 ->]|[[A1 ->]|[[A1 ->]|(A1 & B1 & D1 & ->)]]];
    destruct C2 as [[A2 ->]|[[A2 ->]|[[A2 ->]|(A2 & B2 & D2 & ->)]]];
    try (exfalso; rewrite !append_cons in H; discriminate H);
    do 3 apply append_cancel_l in H; (split; [by rewrite H|]);
    intros k [-> | [-> | ->]]; split; congruence.
Qed.

(** ** Further properties of the keyword policy *)

Lemma all_ascii_app (a b : string) :
  all_ascii (a +:+ b) = all_ascii a && all_ascii b.
Proof.
  induction a as [|c a IH]; [done|].
  rewrite append_cons. cbn [all_ascii]. by rewrite IH, andb_assoc.
Qed.

Lemma map_string_app (f : ascii -> ascii) (a b : string) :
  map_string f (a +:+ b) = map_string f a +:+ map_string f b.
Proof.
  induction a as [|c a IH]; [done|].
  rewrite append_cons. cbn [map_string]. by rewrite IH, append_cons.
Qed.

Lemma length_app (a b : string) :
  String.length (a +:+ b) = String.length a + String.length b.
Proof.
  induction a as [|c a IH]; [done|]. rewrite append_cons. cbn. by rewrite IH.
Qed.

Lemma length_map_string (f : ascii -> ascii) (s : string) :
  String.length (map_string f s) = String.length s.
Proof. induction s as [|c s IH]; [done|]. cbn. by rewrite IH. Qed.

Lemma ascii_lower_ascii (c : ascii) : is_ascii (ascii_lower c) = is_ascii c.
Proof. by destruct c as [[] [] [] [] [] [] [] []]. Qed.

Lemma ascii_lower_idempotent (c : ascii) :
  ascii_lower (ascii_lower c) = ascii_lower c.
Proof. by destruct c as [[] [] [] [] [] [] [] []]. Qed.

Lemma all_ascii_lower (s : string) :
  all_ascii (map_string ascii_lower s) = all_ascii s.
Proof.
  induction s as [|c s IH]; [done|]. cbn. by rewrite ascii_lower_ascii, IH.
Qed.

Lemma str_lower_ascii (s : string) :
  all_ascii s = true -> str_lower s = map_string ascii_lower s.
Proof. unfold str_lower. by intros ->. Qed.

Lemma str_lower_idempotent (s : string) :
  all_ascii s = true -> str_lower (str_lower s) = str_lower s.
Proof.
  intros Hs. rewrite (str_lower_ascii s Hs).
  rewrite str_lower_ascii by by rewrite all_ascii_lower.
  induction s as [|c s IH]; [done|]. cbn in *.
  apply andb_true_iff in Hs as [_ Hs]. by rewrite ascii_lower_idempotent, IH.
Qed.

(** X9: on ASCII tasks the policy does not see letter case: a task and its
    lowercased form are both suspended or both auto-approved. *)
Theorem analyze_task_ignores_case (task : string) :
  all_ascii task = true ->
  (analyze_task (initial_state task) = Interrupt (interrupt_message task) <->
   analyze_task (initial_state (str_lower task))
     = Interrupt (interrupt_message (str_lower task))) /\
  str_lower (str_lower task) = str_lower task.
Proof.
  intros Hascii. split; [|by apply str_lower_idempotent].
  rewrite !analyze_task_initial, (str_lower_idempotent _ Hascii).
  by destruct (existsb _ sensitive_keywords).
Qed.

(** X10: on ASCII text the policy is monotone: a task that is suspended
    stays suspended when text is put before and after it. *)
Theorem analyze_task_monotone (pre task post : string) :
  all_ascii pre = true -> all_ascii task = true -> all_ascii post = true ->
  analyze_task (initial_state task) = Interrupt (interrupt_message task) ->
  analyze_task (initial_state (pre +:+ task +:+ post))
    = Interrupt (interrupt_message (pre +:+ task +:+ post)).
Proof.
  intros Hpre Htask Hpost. rewrite !analyze_task_initial.
  destruct (existsb _ sensitive_keywords) eqn:Hneeds; [intros _|done].
  apply needs_approval_spec in Hneeds as (keyword & Hin & a & b & Hsub).
  assert (Hwhole : existsb (fun keyword => str_in keyword
                                (str_lower (pre +:+ task +:+ post)))
                     sensitive_keywords = true); [|by rewrite Hwhole].
  apply needs_approval_spec. exists keyword. split; [done|].
  rewrite !str_lower_ascii in * by by rewrite ?all_ascii_app, ?Hpre, ?Htask, ?Hpost.
  rewrite !map_string_app, Hsub.
  exists (map_string ascii_lower pre +:+ a), (b +:+ map_string ascii_lower post).
  by rewrite !append_assoc.
Qed.

(** X11: an ASCII task of fewer than six characters, the empty task
    included, is shorter than every keyword and is never suspended. *)
Theorem analyze_task_short_task (task : string) :
  all_ascii task = true ->
  String.length task < 6 ->
  analyze_task (initial_state task)
    = Ret (<["approval_status" := PStr "auto_approved"]> (initial_state task)).
Proof.
  intros Hascii Hshort. rewrite analyze_task_initial.
  destruct (existsb _ sensitive_keywords) eqn:Hneeds; [exfalso|done].
  apply needs_approval_spec in Hneeds as (keyword & Hin & a & b & Hsub).
  apply (f_equal String.length) in Hsub.
  rewrite (str_lower_ascii _ Hascii), length_map_string, !length_app in Hsub.
  assert (6 <= String.length keyword); [|lia].
  cbn in Hin. destruct Hin as [<-|[<-|[<-|[<-|[<-|[]]]]]]; cbn; lia.
Qed.

(** ** The graph built by [create_workflow] *)

(** X12: the graph is well formed. Its entry is Analyze; its nodes are
    Analyze, Execute and Reject; Analyze alone has a conditional edge, and
    for every state the label the router answers is in the path map and
    leads to a registered node whose plain edge ends the graph; Analyze has
    no plain edge. *)
Theorem create_workflow_well_formed :
  edges create_workflow !! START = Some "analyze" /\
  (forall name, is_Some (nodes create_workflow !! name) <->
                name = "analyze" \/ name = "execute" \/ name = "reject") /\
  (forall node, is_Some (branches create_workflow !! node) <-> node = "analyze") /\
  edges create_workflow !! "analyze" = None /\
  (forall state : WorkflowState,
     exists path_map target,
       branches create_workflow !! "analyze" = Some (route_after_analyze, path_map) /\
       path_map !! route_after_analyze state = Some target /\
       is_Some (nodes create_workflow !! target) /\
       edges create_workflow !! target = Some END).
Proof.
  split_and!; try done.
  - intros name. unfold create_workflow. cbn [nodes add_node add_edge
      add_conditional_edges empty_graph].
    rewrite !lookup_insert_is_Some, lookup_empty, is_Some_alt. naive_solver.
  - intros node. unfold create_workflow. cbn [branches add_node add_edge
      add_conditional_edges empty_graph].
    rewrite lookup_insert_is_Some, lookup_empty, is_Some_alt. naive_solver.
  - intros state.
    destruct (route_cases state) as [-> | ->]; eexists _, _;
      (split; [reflexivity|]); (split; [reflexivity|]);
      (split; [by eexists | reflexivity]).
Qed.

End Workflow.

(** ** Concrete runs

    The statements above at concrete tasks, with the identity standing
    for the Unicode case tables (every task below is ASCII). *)

Lemma execute_task_messages_witness :
  execute_task (initial_state "send email") =
    Ret (<["result" := PStr ("✅ Task completed:" +:+ nl +:+ "📋 " +:+ "send email")]>
           (initial_state "send email")).
Proof.
  apply (execute_task_messages (initial_state "send email") (PStr "send email"));
    [reflexivity | discriminate..].
Defined.

Lemma run_suspends_iff_sensitive_witness :
  (run (create_workflow (fun s => s)) ∅ "demo_thread" "Delete Important file").2
    = Ok (suspended (interrupt_message "Delete Important file")).
Proof.
  apply (run_suspends_iff_sensitive (fun s => s) ∅ "demo_thread" "Delete Important file").
  - reflexivity.
  - exists "delete". split; [by left|]. by exists EmptyString, " important file".
Defined.

Lemma resume_decision_suspends_again_witness :
  let w := create_workflow (fun s => s) in
  let parked := (run w ∅ "demo_thread" "delete important file").1 in
  exists ck task,
    parked !! "demo_thread" = Some ck /\
    values ck !! "task" = Some (PStr task) /\
    (resume w parked "demo_thread" (Decide "approved")).2
      = Ok (suspended (interrupt_message task)).
Proof.
  destruct (resume_decision_suspends_again (fun s => s)
              (run (create_workflow (fun s => s)) ∅ "demo_thread"
                 "delete important file").1
              "demo_thread" "approved")
    as (ck & task & Hck & Htask & _ & H).
  - apply reachable_run, reachable_empty.
  - reflexivity.
  - exists ck, task. split; [exact Hck|]. split; [exact Htask|]. apply H.
Defined.



Lemma resume_modified_spec_witness :
  let w := create_workflow (fun s => s) in
  let parked := (run w ∅ "demo_thread" "delete important file").1 in
  exists ck original,
    parked !! "demo_thread" = Some ck /\
    values ck !! "task" = Some (PStr original) /\
    (resume w parked "demo_thread" (Modify "archive old file")).2
      = Ok (completed (PStr ("📝 Modified task executed successfully:" +:+ nl +:+
                             "📋 " +:+ "archive old file"))).
Proof.
  destruct (resume_modified_spec (fun s => s)
              (run (create_workflow (fun s => s)) ∅ "demo_thread"
                 "delete important file").1
              "demo_thread" "archive old file")
    as (ck & original & Hck & Htask & H).
  - apply reachable_run, reachable_empty.
  - reflexivity.
  - exists ck, original. split; [exact Hck|]. split; [exact Htask|]. apply H.
Defined.

Lemma resume_rejected_suspends_again_witness :
  let w := create_workflow (fun s => s) in
  let parked := (run w ∅ "demo_thread" "delete important file").1 in
  exists ck task,
    parked !! "demo_thread" = Some ck /\
    values ck !! "task" = Some (PStr task) /\
    route_after_analyze (decision_update (Decide "rejected") ∪ values ck) = "reject" /\
    (resume w parked "demo_thread" (Decide "rejected")).2
      = Ok (suspended (interrupt_message task)).
Proof.
  destruct (resume_rejected_suspends_again (fun s => s)
              (run (create_workflow (fun s => s)) ∅ "demo_thread"
                 "delete important file").1
              "demo_thread")
    as (ck & task & Hck & Htask & H).
  - apply reachable_run, reachable_empty.
  - reflexivity.
  - exists ck, task. split; [exact Hck|]. split; [exact Htask|].
    split; apply H.
Defined.

Lemma result_iff_terminal_witness :
  let w := create_workflow (fun s => s) in
  let ck :=
    {| values :=
         <["result" := PStr ("✅ Task auto-approved and executed:" +:+ nl +:+
                             "📋 " +:+ "generate report")]>
           (<["approval_status" := PStr "auto_approved"]>
              (initial_state "generate report"));
       paused_at := None; version := 2 |} in
  holds_string (values ck !! "result") <-> Stop = Stop /\ paused_at ck = None.
Proof.
  apply (result_iff_terminal (fun s => s)).
  apply (reach_advance _ "execute"
           {| values := <["approval_status" := PStr "auto_approved"]>
                          (initial_state "generate report");
              paused_at := None; version := 1 |}); [|reflexivity].
  apply (reach_advance _ "analyze"
           {| values := initial_state "generate report";
              paused_at := None; version := 0 |}); [|reflexivity].
  apply (reach_entry _ "generate report" "analyze"). reflexivity.
Defined.

Lemma node_frame_witness :
  let w := create_workflow (fun s => s) in
  let h : gmap positive (gmap string pyval) :=
    {[ 1%positive := initial_state "generate report" ]} in
  let called := call_node (analyze_task (fun s => s)) h 1%positive in
  exists ref',
    called.2 = Ret ref' /\
    h !! ref' = None /\
    called.1 !! 1%positive = Some (initial_state "generate report") /\
    exists state',
      called.1 !! ref' = Some state' /\
      forall k, k <> "approval_status" ->
                state' !! k = initial_state "generate report" !! k.
Proof.
  exists (fresh (dom ({[ 1%positive := initial_state "generate report" ]}
                       : gmap positive (gmap string pyval)))).
  split; [reflexivity|].
  destruct (node_frame (fun s => s) "analyze" (analyze_task (fun s => s))
              {[ 1%positive := initial_state "generate report" ]}
              (call_node (analyze_task (fun s => s))
                 {[ 1%positive := initial_state "generate report" ]} 1%positive).1
              1%positive
              (fresh (dom ({[ 1%positive := initial_state "generate report" ]}
                            : gmap positive (gmap string pyval))))
              (initial_state "generate report"))
    as (Hnew & Hold & _ & state' & _ & Hstate' & Hframe & _);
    [reflexivity..|].
  split; [exact Hnew|]. split; [exact Hold|].
  exists state'. split; [exact Hstate'|exact Hframe].
Defined.

(** ** The chat front end

    The handlers of the Streamlit page and the dispatch of [main]. The
    session state is a record of the keys [main] initialises, with
    show_modify present or not. The compiled workflow is the graph
    library's object: its methods are taken as parameters, each returning
    the object as the call left it and either its value or the text of the
    exception it raised. [st.rerun()] ends the script run. *)

Local Open Scope list_scope.

Record Message : Type := { role : string; content : pyval }.

(** An item of [workflow.stream(...)]: a dictionary with the key
    __interrupt__, which holds the interrupts raised, or without it. *)
Inductive stream_event : Type :=
| InterruptEvent (value : pyval) (others : list pyval)
| UpdateEvent (node : string).

(** Truth value of an object, as [if result := ...] tests it. *)
Definition py_truthy (v : pyval) : bool :=
  match v with
  | PNone => false
  | PStr s => negb (String.eqb s EmptyString)
  | PInt z => negb (z =? 0)%Z
  end.

(** The value of the first interrupt of the first event that has the key:
    the loop of [process_new_task] breaks there. *)
Fixpoint first_interrupt (events : list stream_event) : option pyval :=
  match events with
  | [] => None
  | InterruptEvent value _ :: _ => Some value
  | UpdateEvent _ :: rest => first_interrupt rest
  end.

Inductive ui_error : Type :=
| HandlerKeyError (key : string)
| EngineError (text : string).

(** How a script run, or a handler within it, ends. *)
Inductive script_end : Type :=
| Rerun
| Finished
| Raised (e : ui_error).

(** The widgets of one script run, by what each call returns. *)
Record Widgets : Type := {
  clear_chat : bool;
  approve : bool;
  reject : bool;
  modify : bool;
  modify_input : string;
  submit : bool;
  cancel : bool;
  chat_input : option string
}.

Definition decision_text : gmap string string :=
  {[ "approved" := "✅ Approved"; "rejected" := "❌ Rejected" ]}.

Section Interface.

Variable W : Type.
Variable stream :
  W -> option WorkflowState -> string -> W * (list stream_event + string).
Variable update_state : W -> string -> WorkflowState -> W * option string.
Variable get_state_values : W -> string -> WorkflowState + string.
(** [create_workflow()]: the graph compiled with a new checkpointer. *)
Variable new_workflow : W.

Record Session : Type := {
  messages : list Message;
  is_interrupted : bool;
  current_task : string;
  thread_id : string;
  workflow : W;
  show_modify : option bool
}.

Definition add_message (r : string) (c : pyval) (s : Session) : Session :=
  {| messages := messages s ++ [{| role := r; content := c |}];
     is_interrupted := is_interrupted s; current_task := current_task s;
     thread_id := thread_id s; workflow := workflow s;
     show_modify := show_modify s |}.

Definition set_is_interrupted (b : bool) (s : Session) : Session :=
  {| messages := messages s; is_interrupted := b; current_task := current_task s;
     thread_id := thread_id s; workflow := workflow s;
     show_modify := show_modify s |}.

Definition set_current_task (task : string) (s : Session) : Session :=
  {| messages := messages s; is_interrupted := is_interrupted s;
     current_task := task; thread_id := thread_id s;
     workflow := workflow s; show_modify := show_modify s |}.

Definition set_workflow (w : W) (s : Session) : Session :=
  {| messages := messages s; is_interrupted := is_interrupted s;
     current_task := current_task s; thread_id := thread_id s;
     workflow := w; show_modify := show_modify s |}.

Definition set_show_modify (v : option bool) (s : Session) : Session :=
  {| messages := messages s; is_interrupted := is_interrupted s;
     current_task := current_task s; thread_id := thread_id s;
     workflow := workflow s; show_modify := v |}.

(** The session state after the initialisation at the head of [main] on a
    first visit. *)
Definition init_session : Session :=
  {| messages := []; is_interrupted := false; current_task := EmptyString;
     thread_id := "demo_thread"; workflow := new_workflow;
     show_modify := None |}.

(** The end of each try block: read the state, and show its result if it
    is truthy; an exception is shown with the handler's prefix. *)
Definition show_result (error_prefix : string) (s : Session) : Session :=
  match get_state_values (workflow s) (thread_id s) with
  | inl state_values =>
      let result := dict_get state_values "result" PNone in
      if py_truthy result then add_message "assistant" result s else s
  | inr text => add_message "assistant" (PStr (error_prefix +:+ text)) s
  end.

Definition process_new_task (s : Session) (task : string) : Session * script_end :=
  let s := add_message "user" (PStr ("Execute: " +:+ task)) s in
  let s := set_current_task task s in
  let '(w, outcome) :=
    stream (workflow s) (Some (initial_state task)) (thread_id s) in
  let s := set_workflow w s in
  let s :=
    match outcome with
    | inl events =>
        match first_interrupt events with
        | Some interrupt_message =>
            set_is_interrupted true (add_message "assistant" interrupt_message s)
        | None => show_result "❗ Error: " s
        end
    | inr text => add_message "assistant" (PStr ("❗ Error: " +:+ text)) s
    end in
  (s, Rerun).

(** The part the two resuming handlers share: [update_state] outside the
    try block, then the stream with no input and the result inside it. *)
Definition update_and_stream (error_prefix : string) (update : WorkflowState)
    (s : Session) : Session + Session * string :=
  let '(w, failure) := update_state (workflow s) (thread_id s) update in
  let s := set_workflow w s in
  match failure with
  | Some text => inr (s, text)
  | None =>
      let '(w, outcome) := stream (workflow s) None (thread_id s) in
      let s := set_workflow w s in
      inl match outcome with
          | inl _ => show_result error_prefix s
          | inr text => add_message "assistant" (PStr (error_prefix +:+ text)) s
          end
  end.

Definition resume_workflow (s : Session) (decision : string)
    : Session * script_end :=
  match decision_text !! decision with
  | None => (s, Raised (HandlerKeyError decision))
  | Some text =>
      let s := add_message "user" (PStr text) s in
      match update_and_stream "❗ Resume error: "
              (decision_update (Decide decision)) s with
      | inr (s, text) => (s, Raised (EngineError text))
      | inl s =>
          let s := set_is_interrupted false s in
          let s := set_show_modify None s in
          (s, Rerun)
      end
  end.

Definition modify_and_resume (s : Session) (new_task : string)
    : Session * script_end :=
  let s := add_message "user" (PStr ("📝 Modified to: " +:+ new_task)) s in
  let s := set_current_task new_task s in
  match update_and_stream "❗ Modify error: "
          (decision_update (Modify new_task)) s with
  | inr (s, text) => (s, Raised (EngineError text))
  | inl s =>
      let s := set_is_interrupted false s in
      let s := set_show_modify (Some false) s in
      (s, Rerun)
  end.

Definition clear_conversation (s : Session) : Session * script_end :=
  ({| messages := []; is_interrupted := false; current_task := EmptyString;
      thread_id := thread_id s; workflow := new_workflow;
      show_modify := None |}, Rerun).

Definition main (stored : option Session) (w : Widgets) : Session * script_end :=
  let s := default init_session stored in
  if clear_chat w then clear_conversation s
  else if is_interrupted s then
    if approve w then resume_workflow s "approved"
    else if reject w then resume_workflow s "rejected"
    else if modify w then (set_show_modify (Some true) s, Rerun)
    else if default false (show_modify s) then
      let new_task := modify_input w in
      if submit w && negb (String.eqb new_task EmptyString)
         && negb (String.eqb new_task (current_task s))
      then modify_and_resume s new_task
      else if cancel w then (set_show_modify (Some false) s, Rerun)
      else (s, Finished)
    else (s, Finished)
  else
    match chat_input w with
    | Some task =>
        if negb (String.eqb task EmptyString) then process_new_task s task
        else (s, Finished)
    | None => (s, Finished)
    end.

(** ** The handlers *)

(** A session differs from another by messages added at the end. *)
Definition extends_by (s s' : Session) (added : list Message) : Prop :=
  messages s' = messages s ++ added /\
  current_task s' = current_task s /\
  thread_id s' = thread_id s.

Lemma show_result_shape (error_prefix : string) (s : Session) :
  exists reply,
    show_result error_prefix s =
      {| messages := messages s ++ reply; is_interrupted := is_interrupted s;
         current_task := current_task s; thread_id := thread_id s;
         workflow := workflow s; show_modify := show_modify s |} /\
    length reply <= 1 /\ Forall (fun m => role m = "assistant") reply.
Proof.
  unfold show_result.
  destruct (get_state_values _ _) as [state_values|text].
  - destruct (py_truthy _).
    + eexists [_]. split; [reflexivity|]. split; [cbn; lia|]. by repeat constructor.
    + exists []. rewrite app_nil_r. split; [by destruct s|]. split; [cbn; lia|done].
  - eexists [_]. split; [reflexivity|]. split; [cbn; lia|]. by repeat constructor.
Qed.

Lemma update_and_stream_shape (error_prefix : string) (update : WorkflowState)
    (s : Session) :
  match update_and_stream error_prefix update s with
  | inl s' =>
      (update_state (workflow s) (thread_id s) update).2 = None /\
      exists reply,
        messages s' = messages s ++ reply /\ length reply <= 1 /\
        Forall (fun m => role m = "assistant") reply /\
        is_interrupted s' = is_interrupted s /\
        current_task s' = current_task s /\ thread_id s' = thread_id s /\
        show_modify s' = show_modify s
  | inr (s', text) =>
      (update_state (workflow s) (thread_id s) update).2 = Some text /\
      s' = set_workflow (update_state (workflow s) (thread_id s) update).1 s
  end.
Proof.
  unfold update_and_stream.
  destruct (update_state _ _ _) as [w [text|]]; [done|]. cbn.
  destruct (stream w None (thread_id s)) as [w' [events|text]]; cbn.
  - destruct (show_result_shape error_prefix (set_workflow w' (set_workflow w s)))
      as (reply & -> & Hlen & Hrole).
    split; [done|]. by exists reply.
  - split; [done|]. eexists [_]. split_and!; try done; try (cbn; lia).
    all: by repeat constructor.
Qed.

(** X13: [resume_workflow] accepts the decisions approved and rejected
    only: for any other string it raises KeyError for that string before
    it touches the session state or the workflow. *)
Theorem resume_workflow_unknown_decision (s : Session) (decision : string) :
  decision <> "approved" ->
  decision <> "rejected" ->
  resume_workflow s decision = (s, Raised (HandlerKeyError decision)).
Proof.
  intros Ha Hr. unfold resume_workflow, decision_text.
  by rewrite lookup_insert_ne, lookup_singleton_ne by done.
Qed.

(** X14: [resume_workflow] with approved or rejected adds the user's
    decision to the history, followed by at most one assistant message.
    When [update_state] does not raise, the handler ends in a rerun with
    the interruption flag cleared and show_modify removed, also when the
    stream or the state read raised; when [update_state] raises, the
    exception leaves the handler and the flag stays as it was. *)
Theorem resume_workflow_clears_interruption (s s' : Session) (decision : string)
    (e : script_end) :
  decision = "approved" \/ decision = "rejected" ->
  resume_workflow s decision = (s', e) ->
  let said :=
    {| role := "user";
       content := PStr (if decide (decision = "approved")
                        then "✅ Approved" else "❌ Rejected") |} in
  let updated :=
    (update_state (workflow s) (thread_id s)
       (decision_update (Decide decision))).2 in
  exists reply,
    extends_by s s' (said :: reply) /\ length reply <= 1 /\
    Forall (fun m => role m = "assistant") reply /\
    ((updated = None /\ e = Rerun /\
      is_interrupted s' = false /\ show_modify s' = None) \/
     (exists text, updated = Some text /\ e = Raised (EngineError text) /\
      reply = [] /\ is_interrupted s' = is_interrupted s /\
      show_modify s' = show_modify s)).
Proof.
  intros Hd Hres said updated. unfold resume_workflow in Hres.
  assert (Htext : decision_text !! decision =
            Some (if decide (decision = "approved")
                  then "✅ Approved" else "❌ Rejected")).
  { by destruct Hd as [-> | ->]. }
  rewrite Htext in Hres.
  pose proof (update_and_stream_shape "❗ Resume error: "
                (decision_update (Decide decision))
                (add_message "user"
                   (PStr (if decide (decision = "approved")
                          then "✅ Approved" else "❌ Rejected")) s)) as Hshape.
  destruct (update_and_stream _ _ _) as [s1|[s1 text]].
  - destruct Hshape as (Hup & reply & Hm & Hlen & Hrole & Hi & Hc & Ht & Hs).
    injection Hres as <- <-. exists reply. unfold extends_by. cbn in *.
    rewrite Hm, <- app_assoc. split_and!; try done. by left.
  - destruct Hshape as [Hup ->]. injection Hres as <- <-. exists [].
    unfold extends_by. cbn. split_and!; try done; try (cbn; lia).
    right. by exists text.
Qed.

(** X15: [modify_and_resume] records the new task as current, adds the
    modification to the history, followed by at most one assistant
    message, and, when [update_state] does not raise, ends in a rerun with
    the interruption flag cleared and show_modify set to False. *)
Theorem modify_and_resume_clears_interruption (s s' : Session) (new_task : string)
    (e : script_end) :
  modify_and_resume s new_task = (s', e) ->
  let said :=
    {| role := "user"; content := PStr ("📝 Modified to: " +:+ new_task) |} in
  let updated :=
    (update_state (workflow s) (thread_id s)
       (decision_update (Modify new_task))).2 in
  current_task s' = new_task /\ thread_id s' = thread_id s /\
  exists reply,
    messages s' = messages s ++ said :: reply /\ length reply <= 1 /\
    Forall (fun m => role m = "assistant") reply /\
    ((updated = None /\ e = Rerun /\
      is_interrupted s' = false /\ show_modify s' = Some false) \/
     (exists text, updated = Some text /\ e = Raised (EngineError text) /\
      reply = [] /\ is_interrupted s' = is_interrupted s /\
      show_modify s' = show_modify s)).
Proof.
  intros Hres said updated. unfold modify_and_resume in Hres.
  pose proof (update_and_stream_shape "❗ Modify error: "
                (decision_update (Modify new_task))
                (set_current_task new_task
                   (add_message "user"
                      (PStr ("📝 Modified to: " +:+ new_task)) s))) as Hshape.
  destruct (update_and_stream _ _ _) as [s1|[s1 text]].
  - destruct Hshape as (Hup & reply & Hm & Hlen & Hrole & Hi & Hc & Ht & Hs).
    injection Hres as <- <-. cbn in *. split_and!; try done.
    exists reply. rewrite Hm, <- app_assoc. split_and!; try done. by left.
  - destruct Hshape as [Hup ->]. injection Hres as <- <-. cbn.
    split_and!; try done. exists []. split_and!; try done; try (cbn; lia).
    right. by exists text.
Qed.

(** X16: [process_new_task] never raises, whatever the workflow does: it
    ends in a rerun, records the task as current, and adds the user's
    request to the history followed by at most one assistant message. The
    interruption flag is raised exactly when the stream returned an event
    with an interrupt, whose value is then the message shown; it is never
    lowered. *)
Theorem process_new_task_outcome (s s' : Session) (task : string) (e : script_end) :
  process_new_task s task = (s', e) ->
  let said := {| role := "user"; content := PStr ("Execute: " +:+ task) |} in
  let streamed :=
    (stream (workflow s) (Some (initial_state task)) (thread_id s)).2 in
  e = Rerun /\ current_task s' = task /\ thread_id s' = thread_id s /\
  show_modify s' = show_modify s /\
  exists reply,
    messages s' = messages s ++ said :: reply /\ length reply <= 1 /\
    Forall (fun m => role m = "assistant") reply /\
    match streamed with
    | inl events =>
        match first_interrupt events with
        | Some value =>
            is_interrupted s' = true /\
            reply = [{| role := "assistant"; content := value |}]
        | None => is_interrupted s' = is_interrupted s
        end
    | inr text =>
        is_interrupted s' = is_interrupted s /\
        reply = [{| role := "assistant"; content := PStr ("❗ Error: " +:+ text) |}]
    end.
Proof.
  unfold process_new_task. cbn [workflow thread_id set_current_task add_message].
  destruct (stream _ _ _) as [w [events|text]]; cbn [snd]; intros [= <- <-].
  - destruct (first_interrupt events) as [value|].
    + cbn. split_and!; try done. eexists [_]. rewrite <- app_assoc.
      split_and!; try done; try (cbn; lia).
      all: by repeat constructor.
    + match goal with |- context [show_result ?p ?x] =>
        destruct (show_result_shape p x) as (reply & -> & Hlen & Hrole) end.
      cbn. split_and!; try done. exists reply. rewrite <- app_assoc.
      by split_and!.
  - cbn. split_and!; try done. eexists [_]. rewrite <- app_assoc.
    split_and!; try done; try (cbn; lia).
      all: by repeat constructor.
Qed.

(** ** The dispatch of [main] *)

(** What a script run adds to the history: nothing, or one user message
    followed by at most one assistant message. *)
Definition one_exchange (added : list Message) : Prop :=
  added = [] \/
  exists said reply,
    added = said :: reply /\ role said = "user" /\ length reply <= 1 /\
    Forall (fun m => role m = "assistant") reply.

Lemma resume_workflow_history (s s' : Session) (decision : string) (e : script_end) :
  resume_workflow s decision = (s', e) ->
  (exists added, messages s' = messages s ++ added /\ one_exchange added) /\
  thread_id s' = thread_id s /\
  (e = Rerun -> is_interrupted s' = false /\ messages s' <> messages s) /\
  (forall k, e <> Raised (HandlerKeyError k) \/
             (decision <> "approved" /\ decision <> "rejected")).
Proof.
  unfold resume_workflow.
  destruct (decision_text !! decision) as [text|] eqn:Htext.
  2: { intros [= <- <-]. split_and!; try done.
       - exists []. rewrite app_nil_r. split; [done | by left].
       - intros k. right. split; intros ->; done. }
  match goal with |- context [update_and_stream ?p ?u ?x] =>
    pose proof (update_and_stream_shape p u x) as Hshape;
    destruct (update_and_stream p u x) as [s1|[s1 err]] end.
  - destruct Hshape as (_ & reply & Hm & Hlen & Hrole & _ & _ & Ht & _).
    intros [= <- <-]. cbn in *. rewrite Hm, <- app_assoc. split_and!; try done.
    + eexists. split; [done|]. right. by eexists _, reply.
    + intros _. split; [done|]. intros Heq%(f_equal length).
      rewrite !List.length_app in Heq. cbn in Heq. lia.
    + by left.
  - destruct Hshape as [_ ->]. intros [= <- <-]. cbn. split_and!; try done.
    + eexists. split; [done|]. right. eexists _, []. split_and!; try done; cbn; lia.
    + by left.
Qed.

Lemma modify_and_resume_history (s s' : Session) (new_task : string) (e : script_end) :
  modify_and_resume s new_task = (s', e) ->
  (exists added, messages s' = messages s ++ added /\ one_exchange added) /\
  thread_id s' = thread_id s /\
  (e = Rerun -> is_interrupted s' = false /\ messages s' <> messages s) /\
  (forall k, e <> Raised (HandlerKeyError k)).
Proof.
  unfold modify_and_resume.
  match goal with |- context [update_and_stream ?p ?u ?x] =>
    pose proof (update_and_stream_shape p u x) as Hshape;
    destruct (update_and_stream p u x) as [s1|[s1 err]] end.
  - destruct Hshape as (_ & reply & Hm & Hlen & Hrole & _ & _ & Ht & _).
    intros [= <- <-]. cbn in *. rewrite Hm, <- app_assoc. split_and!; try done.
    + eexists. split; [done|]. right. by eexists _, reply.
    + intros _. split; [done|]. intros Heq%(f_equal length).
      rewrite !List.length_app in Heq. cbn in Heq. lia.
  - destruct Hshape as [_ ->]. intros [= <- <-]. cbn. split_and!; try done.
    eexists. split; [done|]. right. eexists _, []. split_and!; try done; cbn; lia.
Qed.

Lemma process_new_task_history (s s' : Session) (task : string) (e : script_end) :
  process_new_task s task = (s', e) ->
  (exists added, messages s' = messages s ++ added /\ one_exchange added) /\
  thread_id s' = thread_id s /\ e = Rerun.
Proof.
  unfold process_new_task. cbn [workflow thread_id set_current_task add_message].
  destruct (stream _ _ _) as [w [events|text]]; intros [= <- <-].
  - destruct (first_interrupt events) as [value|].
    + cbn. rewrite <- app_assoc. split_and!; try done.
      eexists. split; [done|]. right. eexists _, [_].
      split_and!; try done; try (cbn; lia). all: by repeat constructor.
    + match goal with |- context [show_result ?p ?x] =>
        destruct (show_result_shape p x) as (reply & -> & Hlen & Hrole) end.
      cbn. rewrite <- app_assoc. split_and!; try done.
      eexists. split; [done|]. right. by eexists _, reply.
  - cbn. rewrite <- app_assoc. split_and!; try done.
    eexists. split; [done|]. right. eexists _, [_].
    split_and!; try done; try (cbn; lia). all: by repeat constructor.
Qed.

(** X17: the dispatch of [main] ignores what does not belong to the
    session's state. While the session is not interrupted the decision
    widgets do nothing and only a non-empty chat input starts a task;
    while it is interrupted the chat input does nothing, and a submitted
    modification that is empty or equal to the current task does nothing. *)
Theorem main_ignored_inputs (s : Session) (w : Widgets) :
  clear_chat w = false ->
  (is_interrupted s = false ->
   chat_input w = None \/ chat_input w = Some EmptyString ->
   main (Some s) w = (s, Finished)) /\
  (is_interrupted s = true ->
   approve w = false -> reject w = false -> modify w = false ->
   cancel w = false ->
   default false (show_modify s) = false \/ submit w = false \/
   modify_input w = EmptyString \/ modify_input w = current_task s ->
   main (Some s) w = (s, Finished)).
Proof.
  intros Hclear. unfold main. change (default init_session (Some s)) with s. rewrite Hclear. split.
  - intros -> [-> | ->]; done.
  - intros -> -> -> -> -> Hform.
    destruct (default false (show_modify s)); [|done].
    destruct Hform as [? | [-> | [-> | ->]]]; try done.
    + by rewrite andb_false_r.
    + by rewrite String.eqb_refl, andb_false_r.
Qed.

(** X18: a decision is taken once. If a script run on an interrupted
    session ended in a rerun and added to the history (Approve, Reject or
    a submitted modification), the session is no longer interrupted, and
    on it every decision widget is ignored until a task is entered. *)
Theorem main_decision_taken_once (s s' : Session) (w w' : Widgets) :
  is_interrupted s = true ->
  clear_chat w = false ->
  main (Some s) w = (s', Rerun) ->
  messages s' <> messages s ->
  is_interrupted s' = false /\
  (clear_chat w' = false -> chat_input w' = None ->
   main (Some s') w' = (s', Finished)).
Proof.
  intros Hint Hclear Hmain Hgrew.
  assert (Hcleared : is_interrupted s' = false).
  { unfold main in Hmain. change (default init_session (Some s)) with s in Hmain.
    rewrite Hclear, Hint in Hmain.
    destruct (approve w); [by apply resume_workflow_history in Hmain as (_ & _ & [? _] & _)|].
    destruct (reject w); [by apply resume_workflow_history in Hmain as (_ & _ & [? _] & _)|].
    destruct (modify w); [by injection Hmain as <-|].
    destruct (default false (show_modify s)); [|done].
    destruct (_ && _);
      [by apply modify_and_resume_history in Hmain as (_ & _ & [? _] & _)|].
    destruct (cancel w); [by injection Hmain as <-|done]. }
  split; [done|]. intros Hclear' Hchat. unfold main.
  change (default init_session (Some s')) with s'.
  by rewrite Hclear', Hcleared, Hchat.
Qed.

(** X19: the history only grows. A script run without Clear Chat keeps
    the thread id and leaves the earlier messages in place, adding nothing
    or one user message followed by at most one assistant message. *)
Theorem main_history_append_only (s s' : Session) (w : Widgets) (e : script_end) :
  clear_chat w = false ->
  main (Some s) w = (s', e) ->
  thread_id s' = thread_id s /\
  exists added, messages s' = messages s ++ added /\ one_exchange added.
Proof.
  intros Hclear. unfold main. change (default init_session (Some s)) with s. rewrite Hclear.
  assert (Hsame : forall x : Session,
            messages x = messages s -> thread_id x = thread_id s ->
            thread_id x = thread_id s /\
            exists added, messages x = messages s ++ added /\ one_exchange added).
  { intros x Hm Ht. split; [done|]. exists []. rewrite app_nil_r. split; [done | by left]. }
  destruct (is_interrupted s).
  - destruct (approve w); [by intros (? & ? & _)%resume_workflow_history|].
    destruct (reject w); [by intros (? & ? & _)%resume_workflow_history|].
    destruct (modify w); [intros [= <- <-]; by apply Hsame|].
    destruct (default false (show_modify s)); [|intros [= <- <-]; by apply Hsame].
    destruct (_ && _); [by intros (? & ? & _)%modify_and_resume_history|].
    destruct (cancel w); intros [= <- <-]; by apply Hsame.
  - destruct (chat_input w) as [task|]; [|intros [= <- <-]; by apply Hsame].
    destruct (negb _); [|intros [= <- <-]; by apply Hsame].
    by intros (? & ? & _)%process_new_task_history.
Qed.

(** X20: no script run ends in the KeyError of [resume_workflow]: [main]
    calls it with approved and rejected only. An exception that leaves
    [main] is one [update_state] raised, on an interrupted session. *)
Theorem main_raises_only_engine_errors (stored : option Session) (s' : Session)
    (w : Widgets) (e : ui_error) :
  main stored w = (s', Raised e) ->
  (exists text, e = EngineError text) /\
  is_interrupted (default init_session stored) = true /\
  clear_chat w = false.
Proof.
  unfold main. destruct (clear_chat w); [done|].
  destruct (is_interrupted _).
  - assert (Hengine : (forall k, e <> HandlerKeyError k) ->
              (exists text, e = EngineError text) /\ true = true /\ false = false).
    { intros Hk. split; [|done]. destruct e as [k|text]; [by destruct (Hk k)|eauto]. }
    destruct (approve w).
    { intros (_ & _ & _ & Hk)%resume_workflow_history. apply Hengine.
      intros k ->. by destruct (Hk k) as [?|[? _]]. }
    destruct (reject w).
    { intros (_ & _ & _ & Hk)%resume_workflow_history. apply Hengine.
      intros k ->. by destruct (Hk k) as [?|[_ ?]]. }
    destruct (modify w); [done|].
    destruct (default false (show_modify _)); [|done].
    destruct (_ && _).
    { intros (_ & _ & _ & Hk)%modify_and_resume_history. apply Hengine.
      intros k ->. by destruct (Hk k). }
    by destruct (cancel w).
  - destruct (chat_input w) as [task|]; [|done].
    destruct (negb _); [|done]. by intros (_ & _ & ?)%process_new_task_history.
Qed.

(** X21: Clear Chat returns the page to the state of a first visit: the
    run ends in a rerun with the initial session state (a new workflow,
    no message, no pending interruption), and the next run does what a
    first visit does. *)
Theorem main_clear_is_first_visit (s : Session) (w w' : Widgets) :
  thread_id s = "demo_thread" ->
  clear_chat w = true ->
  main (Some s) w = (init_session, Rerun) /\
  main (Some (main (Some s) w).1) w' = main None w'.
Proof.
  intros Hthread Hclear.
  assert (Hmain : main (Some s) w = (init_session, Rerun)).
  { unfold main, clear_conversation.
    change (default init_session (Some s)) with s.
    by rewrite Hclear, Hthread. }
  by rewrite Hmain.
Qed.

End Interface.

(** ** Concrete instances of the further properties *)

Lemma analyze_task_routes_to_execute_witness :
  route_after_analyze
    (<["approval_status" := PStr "auto_approved"]> (initial_state "send email"))
    = "execute".
Proof.
  apply (analyze_task_routes_to_execute (fun s => s) (initial_state "send email")).
  reflexivity.
Defined.

Lemma analyze_task_idempotent_witness :
  analyze_task (fun s => s)
    (<["approval_status" := PStr "auto_approved"]> (initial_state "send email"))
    = Ret (<["approval_status" := PStr "auto_approved"]> (initial_state "send email")).
Proof.
  apply (analyze_task_idempotent (fun s => s) (initial_state "send email")).
  reflexivity.
Defined.

Lemma analyze_task_consults_policy_witness :
  analyze_task (fun s => s)
    {[ "task" := PStr "delete it"; "approval_status" := PStr "approved";
       "iteration" := PInt (-1) ]}
    = Interrupt (interrupt_message "delete it").
Proof.
  apply (analyze_task_consults_policy (fun s => s) _ "delete it").
  - reflexivity.
  - right. exists (-1)%Z. split; [reflexivity | discriminate].
  - exists "delete". split; [by left|]. by exists EmptyString, " it".
Defined.

Lemma result_depends_on_task_and_status_witness :
  exists r2,
    execute_task
      {[ "task" := PStr "send email"; "approval_status" := PStr "approved" ]}
      = Ret r2 /\
    r2 !! "result" =
      (<["result" := PStr ("✅ Task approved and executed:" +:+ nl +:+ "📋 " +:+
                           "send email")]>
         (<["approval_status" := PStr "approved"]> (initial_state "send email")))
        !! "result".
Proof.
  apply (result_depends_on_task_and_status
           (<["approval_status" := PStr "approved"]> (initial_state "send email"))
           {[ "task" := PStr "send email"; "approval_status" := PStr "approved" ]});
    reflexivity.
Defined.

Lemma node_messages_quote_task_witness :
  substring_of "delete it" (interrupt_message "delete it").
Proof.
  apply (node_messages_quote_task (fun s => s) (initial_state "delete it")
           (PStr "delete it")); reflexivity.
Defined.

Lemma execute_result_identifies_witness :
  py_str <$> (initial_state "send email" : gmap string pyval) !! "task" =
  py_str <$> ({[ "task" := PStr "send email" ]} : gmap string pyval) !! "task".
Proof.
  apply (execute_result_identifies (initial_state "send email")
           {[ "task" := PStr "send email" ]}
           (<["result" := PStr ("✅ Task completed:" +:+ nl +:+ "📋 " +:+ "send email")]>
              (initial_state "send email"))
           (<["result" := PStr ("✅ Task completed:" +:+ nl +:+ "📋 " +:+ "send email")]>
              {[ "task" := PStr "send email" ]}));
    reflexivity.
Defined.

Lemma analyze_task_ignores_case_witness :
  str_lower (fun s => s) (str_lower (fun s => s) "DELETE the File")
    = str_lower (fun s => s) "DELETE the File".
Proof.
  apply (analyze_task_ignores_case (fun s => s) "DELETE the File"). reflexivity.
Defined.

Lemma analyze_task_monotone_witness :
  analyze_task (fun s => s) (initial_state ("please " +:+ "Delete" +:+ " it"))
    = Interrupt (interrupt_message ("please " +:+ "Delete" +:+ " it")).
Proof.
  apply (analyze_task_monotone (fun s => s) "please " "Delete" " it"); reflexivity.
Defined.

Lemma analyze_task_short_task_witness :
  analyze_task (fun s => s) (initial_state "delet")
    = Ret (<["approval_status" := PStr "auto_approved"]> (initial_state "delet")).
Proof.
  apply (analyze_task_short_task (fun s => s) "delet"); [reflexivity | cbn; lia].
Defined.

(** A stand-in for the compiled workflow in the instances below: it counts
    the calls made to it, interrupts every new task and completes every
    resumption; [demo_failing_update] is an [update_state] that raises. *)
Definition demo_stream (w : nat) (input : option (gmap string pyval))
    (thread : string) : nat * (list stream_event + string) :=
  match input with
  | Some _ => (S w, inl [UpdateEvent "analyze"; InterruptEvent (PStr "Please choose") []])
  | None => (S w, inl [UpdateEvent "execute"])
  end.

Definition demo_update_state (w : nat) (thread : string)
    (update : gmap string pyval) : nat * option string :=
  (S w, None).

Definition demo_failing_update (w : nat) (thread : string)
    (update : gmap string pyval) : nat * option string :=
  (w, Some "no checkpoint").

Definition demo_get_state_values (w : nat) (thread : string)
    : gmap string pyval + string :=
  inl {[ "result" := PStr "done" ]}.

(** The session after a first visit on which a task was entered. *)
Definition demo_interrupted : Session nat :=
  (process_new_task nat demo_stream demo_get_state_values
     (init_session nat 0) "delete important file").1.

Definition no_widget : Widgets :=
  {| clear_chat := false; approve := false; reject := false; modify := false;
     modify_input := EmptyString; submit := false; cancel := false;
     chat_input := None |}.

Definition press_approve : Widgets :=
  {| clear_chat := false; approve := true; reject := false; modify := false;
     modify_input := EmptyString; submit := false; cancel := false;
     chat_input := None |}.

Definition press_clear : Widgets :=
  {| clear_chat := true; approve := false; reject := false; modify := false;
     modify_input := EmptyString; submit := false; cancel := false;
     chat_input := None |}.

Lemma resume_workflow_unknown_decision_witness :
  resume_workflow nat demo_stream demo_update_state demo_get_state_values
    demo_interrupted "maybe"
  = (demo_interrupted, Raised (HandlerKeyError "maybe")).
Proof.
  apply (resume_workflow_unknown_decision nat demo_stream demo_update_state
           demo_get_state_values demo_interrupted "maybe"); discriminate.
Defined.

Lemma resume_workflow_clears_interruption_witness :
  is_interrupted nat demo_interrupted = true /\
  is_interrupted nat
    (resume_workflow nat demo_stream demo_update_state demo_get_state_values
       demo_interrupted "approved").1 = false.
Proof.
  split; [reflexivity|].
  destruct (resume_workflow_clears_interruption nat demo_stream demo_update_state
              demo_get_state_values demo_interrupted
              (resume_workflow nat demo_stream demo_update_state
                 demo_get_state_values demo_interrupted "approved").1
              "approved" Rerun)
    as (reply & _ & _ & _ & [(_ & _ & H & _) | (text & Hup & _)]).
  - by left.
  - reflexivity.
  - exact H.
  - discriminate Hup.
Defined.

Lemma modify_and_resume_clears_interruption_witness :
  current_task nat
    (modify_and_resume nat demo_stream demo_update_state demo_get_state_values
       demo_interrupted "archive old file").1 = "archive old file".
Proof.
  apply (modify_and_resume_clears_interruption nat demo_stream demo_update_state
           demo_get_state_values demo_interrupted _ "archive old file" Rerun).
  reflexivity.
Defined.

Lemma process_new_task_outcome_witness :
  current_task nat demo_interrupted = "delete important file".
Proof.
  apply (process_new_task_outcome nat demo_stream demo_get_state_values
           (init_session nat 0) demo_interrupted "delete important file" Rerun).
  reflexivity.
Defined.

Lemma main_ignored_inputs_witness :
  main nat demo_stream demo_update_state demo_get_state_values 0
    (Some (init_session nat 0)) press_approve
  = (init_session nat 0, Finished).
Proof.
  apply (proj1 (main_ignored_inputs nat demo_stream demo_update_state
                  demo_get_state_values 0 (init_session nat 0) press_approve
                  eq_refl));
    [reflexivity | by left].
Defined.

Lemma main_decision_taken_once_witness :
  is_interrupted nat
    (main nat demo_stream demo_update_state demo_get_state_values 0
       (Some demo_interrupted) press_approve).1 = false.
Proof.
  apply (main_decision_taken_once nat demo_stream demo_update_state
           demo_get_state_values 0 demo_interrupted _ press_approve no_widget).
  - reflexivity.
  - reflexivity.
  - reflexivity.
  - discriminate.
Defined.

Lemma main_history_append_only_witness :
  thread_id nat
    (main nat demo_stream demo_update_state demo_get_state_values 0
       (Some demo_interrupted) press_approve).1
  = thread_id nat demo_interrupted.
Proof.
  apply (main_history_append_only nat demo_stream demo_update_state
           demo_get_state_values 0 demo_interrupted _ press_approve Rerun);
    reflexivity.
Defined.

Lemma main_raises_only_engine_errors_witness :
  exists text, EngineError "no checkpoint" = EngineError text.
Proof.
  apply (main_raises_only_engine_errors nat demo_stream demo_failing_update
           demo_get_state_values 0 (Some demo_interrupted)
           (main nat demo_stream demo_failing_update demo_get_state_values 0
              (Some demo_interrupted) press_approve).1
           press_approve (EngineError "no checkpoint")).
  reflexivity.
Defined.

Lemma main_clear_is_first_visit_witness :
  main nat demo_stream demo_update_state demo_get_state_values 0
    (Some demo_interrupted) press_clear
  = (init_session nat 0, Rerun).
Proof.
  apply (main_clear_is_first_visit nat demo_stream demo_update_state
           demo_get_state_values 0 demo_interrupted press_clear no_widget);
    reflexivity.
Defined.
